(** * Data_Generator.py: track extraction, deduplication and augmentation

    A shallow embedding of the data-import script [Data_Generator.py] of the
    Spotify recommendation engine.  The script decodes JSON pages returned by
    the catalog service into Python values, flattens them into records
    ([get_tracks_from_playlist]), stacks the records into pandas tables,
    removes duplicate rows ([drop_duplicates]) and widens the table with audio
    features ([generate_features]) and artist genres ([add_genres]).

    Python values are embedded as the inductive type [pyval]; exceptions are
    explicit results; the catalog service is a parameter of the functions that
    call it; the pandas table that [add_genres] mutates in place lives in a
    store indexed by references. *)

From Stdlib Require Import ZArith String Ascii Bool Lia.
From Stdlib Require Import DecimalString DecimalZ.
From stdpp Require Import base tactics option list strings.

Set Warnings "-register-all".

Local Open Scope string_scope.
Local Open Scope list_scope.
Local Open Scope Z_scope.

(** ** Python values and exceptions *)

(** The values a decoded JSON document is made of.  Numbers are integers
    (identifiers, popularity, counts); JSON booleans and fractional numbers
    are not represented.  A [dict] keeps its insertion order, as in Python. *)
Inductive pyval : Type :=
  | PNone
  | PInt (z : Z)
  | PStr (s : string)
  | PList (l : list pyval)
  | PDict (d : list (string * pyval)).

(** The exceptions the script can meet. *)
Inductive exn : Type :=
  | TypeError
  | KeyError
  | IndexError
  | ValueError
  | SpotifyException.   (* raised by the catalog client *)

Inductive result (A : Type) : Type :=
  | Ok (a : A)
  | Raise (e : exn).
Arguments Ok {A} a.
Arguments Raise {A} e.

Definition bind {A B} (m : result A) (k : A -> result B) : result B :=
  match m with
  | Ok a => k a
  | Raise e => Raise e
  end.

Notation "'let?' x ':=' m 'in' k" := (bind m (fun x => k))
  (at level 10, x name, m at level 100, k at level 200).

(** Structural equality of values, as a boolean. *)
Fixpoint pyval_eqb (a b : pyval) {struct a} : bool :=
  match a, b with
  | PNone, PNone => true
  | PInt x, PInt y => Z.eqb x y
  | PStr s, PStr t => String.eqb s t
  | PList l, PList m =>
      (fix go (l m : list pyval) {struct l} : bool :=
         match l, m with
         | [], [] => true
         | x :: l', y :: m' => pyval_eqb x y && go l' m'
         | _, _ => false
         end) l m
  | PDict d, PDict e =>
      (fix go (d e : list (string * pyval)) {struct d} : bool :=
         match d, e with
         | [], [] => true
         | (k, x) :: d', (k', y) :: e' =>
             String.eqb k k' && pyval_eqb x y && go d' e'
         | _, _ => false
         end) d e
  | _, _ => false
  end.

(** ** Subscription *)

(** [d.get(k)] on the bindings of a dict. *)
Fixpoint dict_get (d : list (string * pyval)) (k : string) : option pyval :=
  match d with
  | [] => None
  | (k', v) :: d' => if String.eqb k' k then Some v else dict_get d' k
  end.

(** [d[k] = v]: replaces the value of an existing key in place, or appends
    the binding. *)
Fixpoint dict_set (d : list (string * pyval)) (k : string) (v : pyval)
  : list (string * pyval) :=
  match d with
  | [] => [(k, v)]
  | (k', v') :: d' =>
      if String.eqb k' k then (k', v) :: d' else (k', v') :: dict_set d' k v
  end.

(** [x[k]] for a string key [k]: a dict is looked up and a missing key is a
    [KeyError]; every other value refuses a string subscript with a
    [TypeError] ([None] and integers are not subscriptable, strings and
    lists want integer indices). *)
Definition getitem (x : pyval) (k : string) : result pyval :=
  match x with
  | PDict d =>
      match dict_get d k with
      | Some v => Ok v
      | None => Raise KeyError
      end
  | _ => Raise TypeError
  end.

(** [x[0]]: the first element of a list, the first character of a string
    ([IndexError] when empty); a decoded dict has string keys only, so key
    [0] is a [KeyError]; [None] and integers raise [TypeError]. *)
Definition getitem0 (x : pyval) : result pyval :=
  match x with
  | PList (v :: _) => Ok v
  | PList [] => Raise IndexError
  | PStr (String c _) => Ok (PStr (String c EmptyString))
  | PStr EmptyString => Raise IndexError
  | PDict _ => Raise KeyError
  | PNone | PInt _ => Raise TypeError
  end.

(** [for item in x]: the elements of a list, the keys of a dict, the
    characters of a string; anything else is not iterable. *)
Fixpoint chars (s : string) : list pyval :=
  match s with
  | EmptyString => []
  | String c s' => PStr (String c EmptyString) :: chars s'
  end.

Definition py_iter (x : pyval) : result (list pyval) :=
  match x with
  | PList l => Ok l
  | PDict d => Ok (map (fun kv => PStr (fst kv)) d)
  | PStr s => Ok (chars s)
  | PNone | PInt _ => Raise TypeError
  end.

(** An optional Python string argument ([None] or a [str]). *)
Definition of_opt (o : option string) : pyval :=
  match o with
  | Some s => PStr s
  | None => PNone
  end.

(** ** Track extraction: [get_tracks_from_playlist] *)

(** The body of the [try] block for one item.  With [time = None] the item
    is a collection-membership item and the track sits under ['track'];
    otherwise the item is the track itself and the record gets the time
    range as a ninth field.  The subscriptions are made in the order of the
    source, so the first one that fails decides the exception. *)
Definition item_info (mood time : option string) (item : pyval)
  : result (list pyval) :=
  match time with
  | None =>
      let? track := getitem item "track" in
      let? track_name := getitem track "name" in
      let? track_id := getitem track "id" in
      let? artists := getitem track "artists" in
      let? artist := getitem0 artists in
      let? artist_name := getitem artist "name" in
      let? artist_id := getitem artist "id" in
      let? album := getitem track "album" in
      let? album_name := getitem album "name" in
      let? album' := getitem track "album" in
      let? album_id := getitem album' "id" in
      let? popularity := getitem track "popularity" in
      Ok [track_name; track_id; artist_name; artist_id;
          album_name; album_id; popularity; of_opt mood]
  | Some t =>
      let? track_name := getitem item "name" in
      let? track_id := getitem item "id" in
      let? artists := getitem item "artists" in
      let? artist := getitem0 artists in
      let? artist_name := getitem artist "name" in
      let? artist_id := getitem artist "id" in
      let? album := getitem item "album" in
      let? album_name := getitem album "name" in
      let? album' := getitem item "album" in
      let? album_id := getitem album' "id" in
      let? popularity := getitem item "popularity" in
      Ok [track_name; track_id; artist_name; artist_id;
          album_name; album_id; popularity; of_opt mood; PStr t]
  end.

(** The [for] loop: a record is appended for an item whose block completes,
    [except TypeError: continue] skips the item, and any other exception
    leaves the loop and the function. *)
Fixpoint collect (mood time : option string) (items : list pyval)
    (tracks : list (list pyval)) : result (list (list pyval)) :=
  match items with
  | [] => Ok tracks
  | item :: rest =>
      match item_info mood time item with
      | Ok info => collect mood time rest (tracks ++ [info])
      | Raise TypeError => collect mood time rest tracks
      | Raise e => Raise e
      end
  end.

(** *** [np.array] on the list of records *)

Inductive dtype : Type :=
  | Float64   (* the empty array *)
  | Numeric   (* integers only *)
  | Unicode   (* fixed-width text *)
  | Object.   (* references to Python values *)

Record ndarray : Type := NdArray {
  nd_dtype : dtype;
  nd_rows : list (list pyval)
}.

(** [str(z)] for an integer. *)
Definition str_of_Z (z : Z) : string := NilZero.string_of_int (Z.to_int z).

(** Integers that fit a 64-bit machine integer, signed or unsigned; a
    larger one stays a Python object. *)
Definition fits_machine_int (z : Z) : bool :=
  (- 2 ^ 63 <=? z) && (z <? 2 ^ 64).

(** The text a cell becomes in a text array; [None] for the cells that
    cannot be stored in one. *)
Definition as_unicode (v : pyval) : option string :=
  match v with
  | PStr s => Some s
  | PInt z => if fits_machine_int z then Some (str_of_Z z) else None
  | PNone | PList _ | PDict _ => None
  end.

Definition is_list (v : pyval) : bool :=
  match v with PList _ => true | _ => false end.

Definition is_str (v : pyval) : bool :=
  match v with PStr _ => true | _ => false end.

Definition is_int (v : pyval) : bool :=
  match v with PInt _ => true | _ => false end.

(** [np.array(tracks)] for records of equal length.  numpy looks for one
    element type for the whole array:
    - no record at all gives the empty float array;
    - a cell that is itself a list makes the nesting ragged, which numpy
      (1.24 and later) refuses with a [ValueError];
    - when every cell is a string or a machine integer and at least one is a
      string, every cell is stored as text, an integer by its decimal
      writing;
    - integers alone give a numeric array; its exact element type, and the
      rounding that a floating-point one brings to integers beyond 2^63, are
      not modelled (the records of the extraction always carry the label and
      never fall in this case);
    - otherwise ([None], a dict or a huge integer somewhere) the array holds
      the Python values unchanged.
    Text is taken as stored, without the trailing NUL characters that a
    fixed-width text array cannot keep. *)
Definition np_array (tracks : list (list pyval)) : result ndarray :=
  match tracks with
  | [] => Ok (NdArray Float64 [])
  | _ =>
      if existsb (existsb is_list) tracks then Raise ValueError
      else
        match mapM (mapM as_unicode) tracks with
        | Some texts =>
            if existsb (existsb is_str) tracks
            then Ok (NdArray Unicode (map (map PStr) texts))
            else Ok (NdArray Numeric tracks)
        | None => Ok (NdArray Object tracks)
        end
  end.

Definition get_tracks_from_playlist (playlist : pyval)
    (mood : option string) (time : option string) : result ndarray :=
  let? items := getitem playlist "items" in
  let? items' := py_iter items in
  let? tracks := collect mood time items' [] in
  np_array tracks.

(** ** pandas tables *)

Definition dict : Type := list (string * pyval).

(** A [DataFrame]: the column labels and the rows, each row with its index
    label.  A missing value (pandas' NaN) is [PNone].  A number is held by
    its value: pandas stores an integer column in which a cell is missing
    (as a left join leaves them) as floating-point numbers, which changes
    no comparison of cells. *)
Record DataFrame : Type := mkDataFrame {
  columns : list string;
  rows : list (Z * list pyval)
}.

Definition nrows (df : DataFrame) : nat := length (rows df).

(** Position of the first column with a given label. *)
Fixpoint col_pos (cols : list string) (c : string) : option nat :=
  match cols with
  | [] => None
  | c' :: cols' =>
      if String.eqb c' c then Some O else option_map S (col_pos cols' c)
  end.

Definition has_col (cols : list string) (c : string) : bool :=
  existsb (String.eqb c) cols.

(** The cell of a row at a position; a row too short reads as missing. *)
Definition cell (r : list pyval) (i : nat) : pyval := nth i r PNone.

(** [df[c]], iterated: the cells of column [c] in row order. *)
Definition getcol (df : DataFrame) (c : string) : result (list pyval) :=
  match col_pos (columns df) c with
  | Some i => Ok (map (fun r => cell (snd r) i) (rows df))
  | None => Raise KeyError
  end.

(** The default index 0, 1, ... *)
Fixpoint range_index {A} (start : Z) (l : list A) : list (Z * A) :=
  match l with
  | [] => []
  | x :: l' => (start, x) :: range_index (start + 1) l'
  end.

(** Removing the element at a position. *)
Fixpoint remove_nth {A} (i : nat) (l : list A) : list A :=
  match l, i with
  | [], _ => []
  | _ :: l', O => l'
  | x :: l', S i' => x :: remove_nth i' l'
  end.

(** [pd.DataFrame(records)] for a list of dicts: the columns are the keys in
    the order in which they are first met, a key that a record lacks is a
    missing value. *)
Fixpoint union_keys (seen : list string) (records : list dict) : list string :=
  match records with
  | [] => seen
  | d :: records' =>
      union_keys
        (fold_left (fun acc kv =>
                      if has_col acc (fst kv) then acc else acc ++ [fst kv])
                   d seen)
        records'
  end.

Definition record_row (cols : list string) (d : dict) : list pyval :=
  map (fun c => match dict_get d c with Some v => v | None => PNone end) cols.

Definition pd_DataFrame (records : list dict) : DataFrame :=
  let cols := union_keys [] records in
  mkDataFrame cols (range_index 0 (map (record_row cols) records)).

(** The elements of a list at the positions a mask keeps. *)
Fixpoint select {A} (mask : list bool) (l : list A) : list A :=
  match mask, l with
  | b :: mask', x :: l' =>
      if b then x :: select mask' l' else select mask' l'
  | _, _ => []
  end.

(** [df.drop(columns=labels)] and [df.drop(label, axis=1)]: every label must
    be there, or pandas raises a [KeyError]. *)
Definition drop_columns (df : DataFrame) (labels : list string)
  : result DataFrame :=
  if forallb (has_col (columns df)) labels
  then
    let mask := map (fun c => negb (has_col labels c)) (columns df) in
    Ok (mkDataFrame (select mask (columns df))
                    (map (fun r => (fst r, select mask (snd r))) (rows df)))
  else Raise KeyError.

(** [df.rename(columns={old: new})]; a label that is absent is ignored. *)
Definition rename_column (df : DataFrame) (old new : string) : DataFrame :=
  mkDataFrame (map (fun c => if String.eqb c old then new else c) (columns df))
              (rows df).

Fixpoint count_col (cols : list string) (c : string) : nat :=
  match cols with
  | [] => O
  | c' :: cols' =>
      if String.eqb c' c then S (count_col cols' c) else count_col cols' c
  end.

(** The position of the join key: the label must be a column ([KeyError])
    and name only one ([ValueError]). *)
Definition key_pos (df : DataFrame) (on : string) : result nat :=
  match col_pos (columns df) on with
  | None => Raise KeyError
  | Some i =>
      if Nat.eqb (count_col (columns df) on) 1 then Ok i else Raise ValueError
  end.

(** The rows of the right table that a left row is joined with: those with
    an equal key, in their order; a left row without a partner is kept once,
    its right-hand cells missing. *)
Definition join_row (i j width : nat) (right : list (Z * list pyval))
    (lrow : list pyval) : list (list pyval) :=
  match filter (fun r => pyval_eqb (cell (snd r) j) (cell lrow i) = true) right with
  | [] => [lrow ++ repeat PNone width]
  | matches => map (fun r => lrow ++ remove_nth j (snd r)) matches
  end.

(** The type pandas infers for a column built from records: the column is
    numeric when its cells are integers or missing, one at least is an
    integer, and the integers fit one machine type (all within 64 signed
    bits, or none negative and all within 64 unsigned bits); otherwise it
    holds Python objects. *)
Definition numeric_cells (cells : list pyval) : bool :=
  existsb is_int cells
  && forallb (fun v => match v with
                       | PInt z => fits_machine_int z
                       | PNone => true
                       | _ => false
                       end) cells
  && negb (existsb (fun v => match v with PInt z => z <? 0 | _ => false end)
                   cells
           && existsb (fun v => match v with
                                | PInt z => 2 ^ 63 <=? z
                                | _ => false
                                end) cells).

(** The key check of [merge], for a left table of Python objects (the tables
    built from the record arrays are) and a right table built from records:
    a numeric key column on the right is refused against a left key column
    that holds no integer at all ([ValueError: You are trying to merge on
    object and int64 columns]).  A table without rows is not checked. *)
Definition keys_clash (lkeys rkeys : list pyval) : bool :=
  match lkeys with
  | [] => false
  | _ :: _ => numeric_cells rkeys && negb (existsb is_int lkeys)
  end.

(** [left.merge(right, on=on, how='left')].  The result has the left columns,
    then the right columns but the key; a label other than the key that both
    tables have gets the suffixes [_x] and [_y]; the index is renumbered. *)
Definition merge_left (left right : DataFrame) (on : string)
  : result DataFrame :=
  let? j := key_pos right on in
  let? i := key_pos left on in
  let? _ := if keys_clash (map (fun r => cell (snd r) i) (rows left))
                          (map (fun r => cell (snd r) j) (rows right))
            then Raise ValueError else Ok tt in
  let rcols := remove_nth j (columns right) in
  let lcols := remove_nth i (columns left) in
  let lnames :=
    map (fun c => if negb (String.eqb c on) && has_col rcols c
                  then c +:+ "_x" else c) (columns left) in
  let rnames :=
    map (fun c => if has_col lcols c then c +:+ "_y" else c) rcols in
  Ok (mkDataFrame (lnames ++ rnames)
        (range_index 0
           (flat_map (fun l => join_row i j (length rcols) (rows right) (snd l))
                     (rows left)))).

(** pandas finds duplicates by hashing the cells; lists and dicts are not
    hashable. *)
Definition hashable (v : pyval) : bool :=
  match v with
  | PList _ | PDict _ => false
  | PNone | PInt _ | PStr _ => true
  end.

Definition row_eqb (a b : list pyval) : bool := pyval_eqb (PList a) (PList b).

(** Rows are kept in order; a row is dropped when its cells (the index label
    is not a cell) equal those of a row seen before it. *)
Fixpoint keep_first (seen : list (list pyval)) (rs : list (Z * list pyval))
  : list (Z * list pyval) :=
  match rs with
  | [] => []
  | r :: rs' =>
      if existsb (row_eqb (snd r)) seen then keep_first seen rs'
      else r :: keep_first (snd r :: seen) rs'
  end.

(** [df.drop_duplicates()]: all columns, first occurrence kept, index labels
    kept.  pandas returns a table without rows or without columns as it is
    ([if self.empty: return self.copy()]), compares a table of one column on
    the values of that column, without hashing rows, and hashes the cells of
    a table of two columns or more. *)
Definition drop_duplicates (df : DataFrame) : result DataFrame :=
  match columns df, rows df with
  | [], _ | _, [] => Ok df
  | [_], _ => Ok (mkDataFrame (columns df) (keep_first [] (rows df)))
  | _ :: _ :: _, _ =>
      if forallb (fun r => forallb hashable (snd r)) (rows df)
      then Ok (mkDataFrame (columns df) (keep_first [] (rows df)))
      else Raise TypeError
  end.

(** Replacing the element at a position. *)
Fixpoint set_nth {A} (i : nat) (x : A) (l : list A) : list A :=
  match l, i with
  | [], _ => []
  | _ :: l', O => x :: l'
  | y :: l', S i' => y :: set_nth i' x l'
  end.

Fixpoint zip_rows (f : list pyval -> pyval -> list pyval)
    (rs : list (Z * list pyval)) (vals : list pyval) : list (Z * list pyval) :=
  match rs, vals with
  | r :: rs', v :: vals' => (fst r, f (snd r) v) :: zip_rows f rs' vals'
  | _, _ => []
  end.

(** [df[c] = vals] for a Python list [vals]: the lengths must agree
    ([ValueError]); an existing column is overwritten where it stands, a new
    one is added after the last. *)
Definition setcol (df : DataFrame) (c : string) (vals : list pyval)
  : result DataFrame :=
  if Nat.eqb (length vals) (nrows df) then
    match col_pos (columns df) c with
    | Some i =>
        Ok (mkDataFrame (columns df)
              (zip_rows (fun r v => set_nth i v r) (rows df) vals))
    | None =>
        Ok (mkDataFrame (columns df ++ [c])
              (zip_rows (fun r v => r ++ [v]) (rows df) vals))
    end
  else Raise ValueError.

(** Running a fallible step over a list, left to right. *)
Fixpoint mapR {A B} (f : A -> result B) (l : list A) : result (list B) :=
  match l with
  | [] => Ok []
  | x :: l' =>
      let? y := f x in
      let? ys := mapR f l' in
      Ok (y :: ys)
  end.

(** [l[0]] on a list returned by the client. *)
Definition head0 {A} (l : list A) : result A :=
  match l with
  | x :: _ => Ok x
  | [] => Raise IndexError
  end.

(** ** Feature augmentation: [generate_features] *)

Section Features.

(** [sp.audio_features(_id)]: the service answers a one-identifier request
    with a list whose entries are feature objects or null; the client may
    raise instead. *)
Variable sp_audio_features : pyval -> result (list (option dict)).

(** [filter(None, features_list)] keeps the truthy entries: neither [None]
    nor an empty dict. *)
Definition truthy (f : option dict) : option dict :=
  match f with
  | Some (kv :: d) => Some (kv :: d)
  | Some [] | None => None
  end.

Definition lookup_features (df : DataFrame) (track_id : string)
  : result (list (option dict)) :=
  let? ids := getcol df track_id in
  mapR (fun _id => let? r := sp_audio_features _id in head0 r) ids.

Definition generate_features (df : DataFrame) (track_id : string)
  : result DataFrame :=
  let? features_list := lookup_features df track_id in
  let features_list := omap truthy features_list in
  let features_df := pd_DataFrame features_list in
  let? features_df :=
    drop_columns features_df ["uri"; "track_href"; "analysis_url"] in
  let features_df := rename_column features_df "id" "track_id" in
  let? df := merge_left df features_df "track_id" in
  if has_col (columns df) "index" then drop_columns df ["index"]
  else Ok df.

End Features.

(** ** Genre augmentation: [add_genres] *)

(** Tables are objects: a variable holds a reference, and the store maps
    references to tables. *)
Definition ref : Type := nat.
Definition store : Type := ref -> DataFrame.

Definition store_set (s : store) (r : ref) (df : DataFrame) : store :=
  fun r' => if Nat.eqb r' r then df else s r'.

Section Genres.

(** [sp.artist(_id)]: the decoded artist object, or an exception of the
    client. *)
Variable sp_artist : pyval -> result pyval.

(** The loop that fills [genres]. *)
Definition genres_of (ids : list pyval) : result (list pyval) :=
  mapR (fun _id => let? artist := sp_artist _id in getitem artist "genres")
       ids.

(** [add_genres(df, artist_id)]: returns nothing ([tt]); the table that
    [df] refers to is updated in the store. *)
Definition add_genres (df : ref) (artist_id : string) (s : store)
  : result (unit * store) :=
  let? ids := getcol (s df) artist_id in
  let? genres := genres_of ids in
  let? df' := setcol (s df) "genres" genres in
  Ok (tt, store_set s df df').

End Genres.

(** ** Catalog search: [generate_mood_lists] *)

(** [d[k] = v] on a dict whose values are lists of identifiers. *)
Fixpoint assoc_set {V} (d : list (string * V)) (k : string) (v : V)
  : list (string * V) :=
  match d with
  | [] => [(k, v)]
  | (k', v') :: d' =>
      if String.eqb k' k then (k', v) :: d' else (k', v') :: assoc_set d' k v
  end.

Fixpoint assoc_get {V} (d : list (string * V)) (k : string) : option V :=
  match d with
  | [] => None
  | (k', v) :: d' => if String.eqb k' k then Some v else assoc_get d' k
  end.

Section MoodLists.

(** [sp.search(mood, type='playlist')]: the decoded answer, or an exception
    of the client. *)
Variable sp_search : string -> result pyval.

(** The inner loop: the ['id'] of every item of the first page of results,
    in order. *)
Definition search_ids (mood : string) : result (list pyval) :=
  let? found := sp_search mood in
  let? playlists := getitem found "playlists" in
  let? items := getitem playlists "items" in
  let? items' := py_iter items in
  mapR (fun item => getitem item "id") items'.

(** The outer loop, from the dict built so far. *)
Fixpoint mood_lists_from (moods : list string)
    (mood_lists : list (string * list pyval))
  : result (list (string * list pyval)) :=
  match moods with
  | [] => Ok mood_lists
  | mood :: rest =>
      let? mood_lst := search_ids mood in
      mood_lists_from rest (assoc_set mood_lists mood mood_lst)
  end.

Definition generate_mood_lists (moods : list string)
  : result (list (string * list pyval)) :=
  mood_lists_from moods [].

End MoodLists.

(** ** The mood table: [generate_track_df] *)

(** [pd.DataFrame(array, columns=cols)]: an array without rows is the
    one-dimensional empty array, which pandas takes as one column; the
    number of labels must be the number of columns ([ValueError]); the index
    is 0, 1, ... *)
Definition frame_of_array (arr : ndarray) (cols : list string)
  : result DataFrame :=
  let width :=
    match nd_rows arr with
    | [] => 1%nat
    | r :: _ => length r
    end in
  if Nat.eqb width (length cols)
  then Ok (mkDataFrame cols (range_index 0 (nd_rows arr)))
  else Raise ValueError.

(** The cells of a row laid out for another list of columns (labels unique
    within a table); a column the row does not have is missing. *)
Definition reindex (src cols : list string) (r : Z * list pyval)
  : Z * list pyval :=
  (fst r,
   map (fun c => match col_pos src c with
                 | Some i => cell (snd r) i
                 | None => PNone
                 end) cols).

(** [pd.concat([a, b])]: the columns of [a], then those of [b] that [a] does
    not have; the rows of [a], then those of [b], with their index
    labels. *)
Definition pd_concat (a b : DataFrame) : DataFrame :=
  let cols :=
    columns a ++ filter (fun c => has_col (columns a) c = false) (columns b) in
  mkDataFrame cols
    (map (reindex (columns a) cols) (rows a)
       ++ map (reindex (columns b) cols) (rows b)).

(** [df.reset_index()]: the index becomes the first column, named ['index'],
    or ['level_0'] when there is an ['index'] column already (a
    [ValueError] when that one exists too); the rows are renumbered. *)
Definition reset_index (df : DataFrame) : result DataFrame :=
  let name := if has_col (columns df) "index" then "level_0" else "index" in
  if has_col (columns df) name then Raise ValueError
  else
    Ok (mkDataFrame (name :: columns df)
          (range_index 0 (map (fun r => PInt (fst r) :: snd r) (rows df)))).

Definition record_columns : list string :=
  ["track_name"; "track_id"; "artist_name"; "artist_id";
   "album_name"; "album_id"; "popularity"; "mood"].

Section TrackDf.

(** [sp.playlist_tracks(playlist, fields=['items'])]. *)
Variable sp_playlist_tracks : pyval -> result pyval.

(** The body of the inner loop: the table of one playlist. *)
Definition playlist_frame (mood : string) (playlist : pyval)
  : result DataFrame :=
  let? items := sp_playlist_tracks playlist in
  let? tracks := get_tracks_from_playlist items (Some mood) None in
  frame_of_array tracks record_columns.

Fixpoint add_playlists (mood : string) (playlists : list pyval)
    (track_df : DataFrame) : result DataFrame :=
  match playlists with
  | [] => Ok track_df
  | playlist :: rest =>
      let? df := playlist_frame mood playlist in
      add_playlists mood rest (pd_concat track_df df)
  end.

Fixpoint add_moods (mood_lists : list (string * list pyval))
    (track_df : DataFrame) : result DataFrame :=
  match mood_lists with
  | [] => Ok track_df
  | (mood, playlists) :: rest =>
      let? track_df' := add_playlists mood playlists track_df in
      add_moods rest track_df'
  end.

Definition generate_track_df (mood_lists : list (string * list pyval))
  : result DataFrame :=
  let? track_df := add_moods mood_lists (mkDataFrame [] []) in
  reset_index track_df.

End TrackDf.

(** ** Notions used in the statements *)

(** The record of an item whose block completes. *)
Definition ok_info (mood time : option string) (item : pyval)
  : option (list pyval) :=
  match item_info mood time item with
  | Ok info => Some info
  | Raise _ => None
  end.

(** The object that holds the track fields of an item, by input shape. *)
Definition track_of (time : option string) (item : pyval) : result pyval :=
  match time with
  | None => getitem item "track"
  | Some _ => Ok item
  end.

(** What a cell of the record list is once stored in an array of a given
    element type. *)
Definition np_cell (d : dtype) (v : pyval) : pyval :=
  match d with
  | Unicode =>
      match as_unicode v with
      | Some s => PStr s
      | None => v
      end
  | Float64 | Numeric | Object => v
  end.

(** The number of fields of a record, by input shape. *)
Definition arity (time : option string) : nat :=
  match time with
  | None => 8
  | Some _ => 9
  end.

(** The required fields of a record: name, track id, artist name and id,
    album name and id, popularity. *)
Definition required_non_null (r : list pyval) : Prop :=
  Forall (fun v => v <> PNone) (take 7 r).

(** Writing a list of artists into an item, under ['track'] for a
    collection-membership item and at the top for a top-item. *)
Definition set_artists (track : pyval) (artists : list pyval) : pyval :=
  match track with
  | PDict d => PDict (dict_set d "artists" (PList artists))
  | _ => track
  end.

Definition with_artists (time : option string) (item : pyval)
    (artists : list pyval) : pyval :=
  match time with
  | Some _ => set_artists item artists
  | None =>
      match item with
      | PDict w =>
          match dict_get w "track" with
          | Some track => PDict (dict_set w "track" (set_artists track artists))
          | None => item
          end
      | _ => item
      end
  end.

(** The fields of an item, read by subscription of the item itself: [info]
    holds them when every subscription returns.  The artist is the first
    element of the artist list. *)
Definition item_fields (mood time : option string) (item : pyval)
    (info : list pyval) : Prop :=
  exists track name id artists artist aname aid album alname alid pop,
    track_of time item = Ok track /\
    getitem track "name" = Ok name /\
    getitem track "id" = Ok id /\
    getitem track "artists" = Ok artists /\
    getitem0 artists = Ok artist /\
    getitem artist "name" = Ok aname /\
    getitem artist "id" = Ok aid /\
    getitem track "album" = Ok album /\
    getitem album "name" = Ok alname /\
    getitem album "id" = Ok alid /\
    getitem track "popularity" = Ok pop /\
    info = [name; id; aname; aid; alname; alid; pop; of_opt mood]
             ++ match time with None => [] | Some t => [PStr t] end.

(** The rows returned for the items of a page, in the order of the items:
    an item whose fields can all be read gives one row, which [keep] relates
    to the item and its fields; an item of which a field cannot be read
    gives no row. *)
Inductive extracted (mood time : option string)
    (keep : pyval -> list pyval -> list pyval -> Prop)
  : list pyval -> list (list pyval) -> Prop :=
  | extracted_nil : extracted mood time keep [] []
  | extracted_keep (item : pyval) (info r : list pyval)
      (items : list pyval) (rs : list (list pyval)) :
      item_fields mood time item info ->
      keep item info r ->
      extracted mood time keep items rs ->
      extracted mood time keep (item :: items) (r :: rs)
  | extracted_skip (item : pyval) (items : list pyval)
      (rs : list (list pyval)) :
      (forall info, ~ item_fields mood time item info) ->
      extracted mood time keep items rs ->
      extracted mood time keep (item :: items) rs.


(** The artist cells of a row against its item: they hold, as the array
    stores them, the name and the id of the first element of the artist
    list of the item. *)
Definition first_artist_cells (time : option string) (d : dtype)
    (item : pyval) (r : list pyval) : Prop :=
  exists track artists first aname aid,
    track_of time item = Ok track /\
    getitem track "artists" = Ok artists /\
    getitem0 artists = Ok first /\
    getitem first "name" = Ok aname /\
    getitem first "id" = Ok aid /\
    cell r 2 = np_cell d aname /\
    cell r 3 = np_cell d aid.

(** The identifiers of the result page of a mood: the ['id'] of every item
    of [sp.search(mood)['playlists']['items']], in page order. *)
Definition page_ids (sp_search : string -> result pyval) (mood : string)
    (ids : list pyval) : Prop :=
  exists found playlists v items,
    sp_search mood = Ok found /\
    getitem found "playlists" = Ok playlists /\
    getitem playlists "items" = Ok v /\
    py_iter v = Ok items /\
    Forall2 (fun item id => getitem item "id" = Ok id) items ids.

(** Every row has one cell per column. *)
Definition wf_frame (df : DataFrame) : Prop :=
  Forall (fun r => length (snd r) = length (columns df)) (rows df).

Definition hashable_frame (df : DataFrame) : Prop :=
  Forall (fun r => Forall (fun v => hashable v = true) (snd r)) (rows df).

(** The table of features that [generate_features] joins onto its input:
    the truthy answers, without the three URI columns, their ['id'] renamed
    to ['track_id']. *)
Definition features_frame
    (sp_audio_features : pyval -> result (list (option dict)))
    (df : DataFrame) (track_id : string) : result DataFrame :=
  let? features_list := lookup_features sp_audio_features df track_id in
  let? features_df :=
    drop_columns (pd_DataFrame (omap truthy features_list))
                 ["uri"; "track_href"; "analysis_url"] in
  Ok (rename_column features_df "id" "track_id").

(** The cells of a table at a column position, in row order. *)
Definition cells_at (df : DataFrame) (j : nat) : list pyval :=
  map (fun r => cell (snd r) j) (rows df).

(** The moods in the order in which they are first met. *)
Fixpoint first_seen (moods seen : list string) : list string :=
  match moods with
  | [] => []
  | m :: rest =>
      if has_col seen m then first_seen rest seen
      else m :: first_seen rest (seen ++ [m])
  end.

(** The (mood, playlist) pairs in the order of the two nested loops. *)
Definition mood_playlists (mood_lists : list (string * list pyval))
  : list (string * pyval) :=
  flat_map (fun mp => map (pair (fst mp)) (snd mp)) mood_lists.

(** The records of one playlist, each after its position in the playlist. *)
Definition position_rows (records : list (list pyval)) : list (list pyval) :=
  map (fun r => PInt (fst r) :: snd r) (range_index 0 records).

(** The two nested loops of [generate_track_df] as one loop over the
    (mood, playlist) pairs. *)
Fixpoint add_pairs (sp_playlist_tracks : pyval -> result pyval)
    (pairs : list (string * pyval)) (track_df : DataFrame)
  : result DataFrame :=
  match pairs with
  | [] => Ok track_df
  | mp :: rest =>
      let? df := playlist_frame sp_playlist_tracks (fst mp) (snd mp) in
      add_pairs sp_playlist_tracks rest (pd_concat track_df df)
  end.

(** The records extracted for a playlist under a mood. *)
Definition playlist_records (sp_playlist_tracks : pyval -> result pyval)
    (mp : string * pyval) (records : list (list pyval)) : Prop :=
  exists items arr,
    sp_playlist_tracks (snd mp) = Ok items /\
    get_tracks_from_playlist items (Some (fst mp)) None = Ok arr /\
    nd_rows arr = records.

(** ** The user table (the script after [add_genres]) *)

(** [time_rank_range]: how many top tracks are asked for each window. *)
Definition time_rank_range : list (string * Z) :=
  [("short_term", 10); ("medium_term", 20); ("long_term", 50)].

(** The element type of a stack of arrays. *)
Definition join_dtype (a b : dtype) : dtype :=
  match a, b with
  | Object, _ | _, Object => Object
  | Unicode, _ | _, Unicode => Unicode
  | Numeric, _ | _, Numeric => Numeric
  | Float64, Float64 => Float64
  end.

(** [np.atleast_2d]: the one-dimensional empty array becomes one row
    without cells. *)
Definition atleast_2d (a : ndarray) : list (list pyval) :=
  match nd_rows a with
  | [] => [[]]
  | rs => rs
  end.

(** [np.vstack(arrays)]: the rows of the arrays, one array after the other;
    there must be an array, and all rows must have the same number of cells
    ([ValueError]); the cells are stored as the common element type
    demands. *)
Definition np_vstack (arrays : list ndarray) : result ndarray :=
  let all_rows := concat (map atleast_2d arrays) in
  match all_rows with
  | [] => Raise ValueError
  | r0 :: _ =>
      if forallb (fun r => Nat.eqb (length r) (length r0)) all_rows
      then
        let d := fold_right join_dtype Float64 (map nd_dtype arrays) in
        Ok (NdArray d (map (map (np_cell d)) all_rows))
      else Raise ValueError
  end.

(** [df.drop_duplicates().reset_index().drop('index', axis=1)]. *)
Definition drop_duplicates_renumbered (df : DataFrame) : result DataFrame :=
  let? df1 := drop_duplicates df in
  let? df2 := reset_index df1 in
  drop_columns df2 ["index"].

Definition user_columns : list string :=
  ["track_name"; "track_id"; "artist_name"; "artist_id";
   "album_name"; "album_id"; "popularity"; "mood"; "time_range"].

Section UserTopTracks.

(** [sp.current_user_top_tracks(limit=rank, time_range=time)]. *)
Variable sp_current_user_top_tracks : Z -> string -> result pyval.
Variable sp_audio_features : pyval -> result (list (option dict)).
Variable sp_artist : pyval -> result pyval.

(** The records of one window: no mood, the window as time. *)
Definition window_tracks (tr : string * Z) : result ndarray :=
  let? top := sp_current_user_top_tracks (snd tr) (fst tr) in
  get_tracks_from_playlist top None (Some (fst tr)).

(** The loop over the windows and the stacking of their arrays. *)
Definition user_top_tracks : result ndarray :=
  let? arrays := mapR window_tracks time_rank_range in
  np_vstack arrays.

(** The rest of the script: the table, its features, the removal of
    duplicates, the genres.  The table object that [add_genres] updates is
    the only one of its store. *)
Definition user_top_tracks_df : result DataFrame :=
  let? tracks := user_top_tracks in
  let? df := frame_of_array tracks user_columns in
  let? df := generate_features sp_audio_features df "track_id" in
  let? df := drop_duplicates_renumbered df in
  let? us := add_genres sp_artist O "artist_id" (fun _ => df) in
  Ok (snd us O).

End UserTopTracks.

(** The different rows of a list of rows, in the order in which they are
    first met. *)
Fixpoint distinct (seen l : list (list pyval)) : list (list pyval) :=
  match l with
  | [] => []
  | x :: l' =>
      if existsb (row_eqb x) seen then distinct seen l'
      else x :: distinct (x :: seen) l'
  end.

(** In a table, rows with the same cell in the column [on] are the same in
    all columns. *)
Definition consistent_keys (df : DataFrame) (on : string) : bool :=
  match col_pos (columns df) on with
  | None => true
  | Some j =>
      forallb (fun r1 =>
                 forallb (fun r2 =>
                            implb (pyval_eqb (cell (snd r1) j) (cell (snd r2) j))
                                  (row_eqb (snd r1) (snd r2)))
                         (rows df))
              (rows df)
  end.

(** ** Sample data *)

Definition artist_obj (name id : string) : pyval :=
  PDict [("id", PStr id); ("name", PStr name)].

Definition track_obj (name : pyval) (id : string) (artists : list pyval)
    (popularity : pyval) : pyval :=
  PDict [("album", PDict [("id", PStr "al1"); ("name", PStr "Album")]);
         ("artists", PList artists);
         ("id", PStr id);
         ("name", name);
         ("popularity", popularity)].

Definition membership (track : pyval) : pyval :=
  PDict [("added_at", PStr "2022-07-02T00:00:00Z"); ("track", track)].

Definition page (items : list pyval) : pyval := PDict [("items", PList items)].

Definition track1 : pyval :=
  track_obj (PStr "One") "t1" [artist_obj "Ann" "a1"; artist_obj "Bob" "a2"]
            (PInt 57).

Definition track3 : pyval :=
  track_obj (PStr "Three") "t3" [artist_obj "Cy" "a3"] (PInt 12).

(** Three items, the second without a ['track'] key. *)
Definition page_missing_key : pyval :=
  page [membership track1;
        PDict [("added_at", PStr "2022-07-02T00:00:00Z")];
        membership track3].

(** Three items, the track of the second null. *)
Definition page_null_track : pyval :=
  page [membership track1; membership PNone; membership track3].

(** One item whose track has a null name. *)
Definition page_null_name : pyval :=
  page [membership (track_obj PNone "t1" [artist_obj "Ann" "a1"] (PInt 57))].

(** One well-formed item. *)
Definition page_one : pyval := page [membership track1].

(** The columns of the mood table before deduplication: [reset_index] has
    turned the position of a track in its playlist into the column
    ['index']. *)
Definition track_columns : list string :=
  ["index"; "track_name"; "track_id"; "artist_name"; "artist_id";
   "album_name"; "album_id"; "popularity"; "mood"].

Definition track_row (pos : Z) (mood : string) : list pyval :=
  [PInt pos; PStr "One"; PStr "t1"; PStr "Ann"; PStr "a1"; PStr "Album";
   PStr "al1"; PStr "57"; PStr mood].

(** The same track found under two moods. *)
Definition table_two_moods : DataFrame :=
  mkDataFrame track_columns
    [(0, track_row 0 "Happy"); (1, track_row 0 "Sad")].

(** The same track found twice under one mood and once under another. *)
Definition table_repeated : DataFrame :=
  mkDataFrame track_columns
    [(0, track_row 0 "Happy"); (1, track_row 0 "Happy");
     (2, track_row 0 "Sad")].

(** A feature object of the service. *)
Definition features_of (id : string) : dict :=
  [("danceability", PInt 1); ("energy", PInt 1); ("key", PInt 7);
   ("type", PStr "audio_features"); ("id", PStr id);
   ("uri", PStr "spotify:track"); ("track_href", PStr "https://api/tracks");
   ("analysis_url", PStr "https://api/audio-analysis");
   ("duration_ms", PInt 200000); ("time_signature", PInt 4)].

(** A service that knows every track, and one that knows none. *)
Definition service_all (id : pyval) : result (list (option dict)) :=
  match id with
  | PStr s => Ok [Some (features_of s)]
  | _ => Ok [None]
  end.

Definition service_none (id : pyval) : result (list (option dict)) :=
  Ok [None].

(** An artist service, and a table that has a ['genres'] column already. *)
Definition artist_service (id : pyval) : result pyval :=
  Ok (PDict [("genres", PList [PStr "pop"]); ("id", id)]).

Definition table_with_genres : DataFrame :=
  mkDataFrame ["track_id"; "genres"; "artist_id"]
    [(0, [PStr "t1"; PList [PStr "rock"]; PStr "a1"])].

(** A search service: the page of a mood holds two playlists; the page of
    ["Sad"] holds an item without ['id']. *)
Definition search_service (mood : string) : result pyval :=
  if String.eqb mood "Sad"
  then Ok (PDict [("playlists",
                   PDict [("items", PList [PDict [("id", PStr "p1")];
                                           PDict [("name", PStr "untitled")]])])])
  else Ok (PDict [("playlists",
                   PDict [("items", PList [PDict [("id", PStr "p1")];
                                           PDict [("id", PStr "p2")]])])]).

(** A playlist service: ["p1"] holds one track, ["p2"] three items of which
    one is unavailable, any other playlist is empty. *)
Definition playlist_service (playlist : pyval) : result pyval :=
  match playlist with
  | PStr "p1" => Ok page_one
  | PStr "p2" => Ok page_null_track
  | _ => Ok (page [])
  end.

(** Top-track services: one answers every window with two tracks, the other
    has nothing for the medium window. *)
Definition top_service (rank : Z) (time : string) : result pyval :=
  Ok (page [track1; track3]).

Definition top_service_gap (rank : Z) (time : string) : result pyval :=
  if String.eqb time "medium_term" then Ok (page [])
  else Ok (page [track1; track3]).

(** An artist service that fails for the artist ["a3"]. *)
Definition artist_service_gap (id : pyval) : result pyval :=
  match id with
  | PStr "a3" => Ok (PDict [("id", id)])
  | _ => Ok (PDict [("genres", PList [PStr "pop"]); ("id", id)])
  end.

(** A user table: one track in two windows, another in one. *)
Definition user_row (track artist window : string) : list pyval :=
  [PStr "Song"; PStr track; PStr "Artist"; PStr artist; PStr "Album";
   PStr "al1"; PInt 57; PNone; PStr window].

Definition user_table : DataFrame :=
  mkDataFrame user_columns
    [(0, user_row "t1" "a1" "short_term");
     (1, user_row "t3" "a3" "short_term");
     (2, user_row "t1" "a1" "medium_term")].

Definition user_table_two : DataFrame :=
  mkDataFrame user_columns
    [(0, user_row "t1" "a1" "short_term");
     (1, user_row "t3" "a3" "short_term")].

(** The user table with its features, before and after the removal of
    duplicates. *)
Definition user_features : DataFrame :=
  match features_frame service_all user_table "track_id" with
  | Ok df => df
  | Raise _ => user_table
  end.

Definition user_with_features : DataFrame :=
  match generate_features service_all user_table "track_id" with
  | Ok df => df
  | Raise _ => user_table
  end.

Definition user_deduplicated : DataFrame :=
  match drop_duplicates user_with_features with
  | Ok df => df
  | Raise _ => user_table
  end.

(** The store after [add_genres] has run on the user table. *)
Definition genres_store : store :=
  match add_genres artist_service 0%nat "artist_id" (fun _ => user_table) with
  | Ok us => snd us
  | Raise _ => fun _ => user_table
  end.

(** The same rows under a table that kept an ['index'] column. *)
Definition indexed_table : DataFrame :=
  mkDataFrame ("index" :: user_columns)
    [(0, PInt 0 :: user_row "t1" "a1" "short_term");
     (1, PInt 0 :: user_row "t1" "a1" "short_term")].

(** * Properties *)

(** ** Equality of values *)

Section PyvalInd.

Variable P : pyval -> Prop.
Hypothesis HNone : P PNone.
Hypothesis HInt : forall z, P (PInt z).
Hypothesis HStr : forall s, P (PStr s).
Hypothesis HList : forall l, Forall P l -> P (PList l).
Hypothesis HDict : forall d, Forall (fun kv => P (snd kv)) d -> P (PDict d).

(** Induction on values that reaches the elements of lists and dicts. *)
Fixpoint pyval_nested_ind (v : pyval) : P v :=
  match v with
  | PNone => HNone
  | PInt z => HInt z
  | PStr s => HStr s
  | PList l =>
      HList l
        ((fix go (l : list pyval) : Forall P l :=
            match l with
            | [] => List.Forall_nil P
            | x :: l' => List.Forall_cons _ x l' (pyval_nested_ind x) (go l')
            end) l)
  | PDict d =>
      HDict d
        ((fix go (d : list (string * pyval))
            : Forall (fun kv => P (snd kv)) d :=
            match d with
            | [] => List.Forall_nil _
            | kv :: d' =>
                List.Forall_cons _ kv d' (pyval_nested_ind (snd kv)) (go d')
            end) d)
  end.

End PyvalInd.

Lemma pyval_eqb_refl (a : pyval) : pyval_eqb a a = true.
Proof.
  induction a as [| z | s | l IH | d IH] using pyval_nested_ind; simpl.
  - reflexivity.
  - apply Z.eqb_refl.
  - apply String.eqb_refl.
  - induction IH as [| x l Hx _ IHl]; [reflexivity |].
    now rewrite Hx, IHl.
  - induction IH as [| [k x] d Hx _ IHd]; [reflexivity |].
    simpl in Hx. now rewrite String.eqb_refl, Hx, IHd.
Qed.

Lemma pyval_eqb_sound (a : pyval) : forall b, pyval_eqb a b = true -> a = b.
Proof.
  induction a as [| z | s | l IH | d IH] using pyval_nested_ind;
    intros [| z' | s' | l' | d'] H; simpl in H; try discriminate.
  - reflexivity.
  - apply Z.eqb_eq in H. now subst.
  - apply String.eqb_eq in H. now subst.
  - f_equal. revert l' H.
    induction IH as [| x l Hx _ IHl]; intros [| y l'] H;
      try discriminate; [reflexivity |].
    apply andb_true_iff in H as [H1 H2].
    f_equal; [now apply Hx | now apply IHl].
  - f_equal. revert d' H.
    induction IH as [| [k x] d Hx _ IHd]; intros [| [k' y] d'] H;
      try discriminate; [reflexivity |].
    apply andb_true_iff in H as [H12 H3].
    apply andb_true_iff in H12 as [H1 H2].
    apply String.eqb_eq in H1. simpl in Hx. apply Hx in H2. subst.
    f_equal. now apply IHd.
Qed.

Lemma pyval_eqb_eq (a b : pyval) : pyval_eqb a b = true <-> a = b.
Proof.
  split; [apply pyval_eqb_sound | intros ->; apply pyval_eqb_refl].
Qed.

Lemma row_eqb_eq (a b : list pyval) : row_eqb a b = true <-> a = b.
Proof.
  unfold row_eqb. rewrite pyval_eqb_eq. split; [now intros [= ->] | now intros ->].
Qed.

Lemma existsb_row_eqb (r : list pyval) (seen : list (list pyval)) :
  existsb (row_eqb r) seen = true <-> r ∈ seen.
Proof.
  rewrite existsb_exists. split.
  - intros (x & Hin & Heq). apply row_eqb_eq in Heq. subst.
    now apply list_elem_of_In.
  - intros Hin. exists r. split; [now apply list_elem_of_In | now apply row_eqb_eq].
Qed.

(** ** Track extraction *)

Ltac invert_binds H :=
  repeat match type of H with
         | bind ?m _ = Ok _ =>
             let E := fresh "E" in
             destruct m eqn:E; simpl in H; [| discriminate H]
         end.

(** A record is produced only when every subscription of the block
    succeeds, and then holds the values found. *)
Lemma item_info_ok (mood time : option string) (item : pyval)
    (info : list pyval) :
  item_info mood time item = Ok info ->
  exists track name id artists artist aname aid album alname alid pop,
    track_of time item = Ok track /\
    getitem track "name" = Ok name /\
    getitem track "id" = Ok id /\
    getitem track "artists" = Ok artists /\
    getitem0 artists = Ok artist /\
    getitem artist "name" = Ok aname /\
    getitem artist "id" = Ok aid /\
    getitem track "album" = Ok album /\
    getitem album "name" = Ok alname /\
    getitem album "id" = Ok alid /\
    getitem track "popularity" = Ok pop /\
    info = [name; id; aname; aid; alname; alid; pop; of_opt mood]
             ++ match time with None => [] | Some t => [PStr t] end.
Proof.
  intros H. unfold item_info in H. destruct time as [t |].
  - invert_binds H. injection H as <-.
    exists item. do 10 eexists. simpl. repeat split; eassumption.
  - invert_binds H. injection H as <-.
    do 11 eexists. simpl. repeat split; eassumption.
Qed.

Lemma item_info_length (mood time : option string) (item : pyval)
    (info : list pyval) :
  item_info mood time item = Ok info -> length info = arity time.
Proof.
  intros H. apply item_info_ok in H.
  destruct H as (? & ? & ? & ? & ? & ? & ? & ? & ? & ? & ? & H).
  destruct H as (_ & _ & _ & _ & _ & _ & _ & _ & _ & _ & _ & ->).
  now destruct time.
Qed.

(** The loop returns the records of the items whose block completes, in
    order, after those it already had; it returns only if no item raised
    anything but a [TypeError]. *)
Lemma collect_ok (mood time : option string) (items : list pyval) :
  forall acc tracks,
    collect mood time items acc = Ok tracks ->
    tracks = acc ++ omap (ok_info mood time) items /\
    Forall (fun it => item_info mood time it = Raise TypeError \/
                      exists info, item_info mood time it = Ok info) items.
Proof.
  induction items as [| it items IH]; intros acc tracks H; simpl in H.
  - injection H as <-. split; [now rewrite app_nil_r | constructor].
  - simpl. unfold ok_info at 1.
    destruct (item_info mood time it) as [info | e] eqn:E.
    + apply IH in H as [-> HF]. split.
      * now rewrite <- app_assoc.
      * constructor; [right; now exists info | exact HF].
    + destruct e; try discriminate H.
      apply IH in H as [-> HF]. split; [reflexivity |].
      constructor; [now left | exact HF].
Qed.

Lemma collect_total (mood time : option string) (items : list pyval) :
  Forall (fun it => item_info mood time it = Raise TypeError \/
                    exists info, item_info mood time it = Ok info) items ->
  forall acc,
    collect mood time items acc = Ok (acc ++ omap (ok_info mood time) items).
Proof.
  induction 1 as [| it items Hit _ IH]; intros acc; simpl.
  - now rewrite app_nil_r.
  - unfold ok_info at 1.
    destruct Hit as [E | [info E]]; rewrite E.
    + apply IH.
    + rewrite IH. now rewrite <- app_assoc.
Qed.

(** An exception other than [TypeError] raised by an item leaves the loop,
    whatever comes after the item. *)
Lemma collect_raise (mood time : option string) (pre : list pyval)
    (it : pyval) (post : list pyval) (e : exn) :
  Forall (fun it => item_info mood time it = Raise TypeError \/
                    exists info, item_info mood time it = Ok info) pre ->
  item_info mood time it = Raise e ->
  e <> TypeError ->
  forall acc, collect mood time (pre ++ it :: post) acc = Raise e.
Proof.
  intros Hpre Hit He. induction Hpre as [| x pre Hx _ IH]; intros acc; simpl.
  - rewrite Hit. destruct e; first [reflexivity | now contradiction He].
  - destruct Hx as [E | [info E]]; rewrite E; apply IH.
Qed.

Lemma omap_length_le {A B} (f : A -> option B) (l : list A) :
  (length (omap f l) <= length l)%nat.
Proof.
  induction l as [| x l IH]; [reflexivity |].
  cbn. destruct (f x); cbn; lia.
Qed.

(** *** The array of records *)

Lemma np_cell_same (d : dtype) (l : list (list pyval)) :
  d <> Unicode -> map (map (np_cell d)) l = l.
Proof.
  intros Hd. rewrite <- (map_id l) at 2. apply map_ext. intros r.
  rewrite <- (map_id r) at 2. apply map_ext. intros v.
  now destruct d.
Qed.

Lemma unicode_row (r : list pyval) (texts : list string) :
  mapM as_unicode r = Some texts ->
  map PStr texts = map (np_cell Unicode) r.
Proof.
  intros H. apply mapM_Some_1 in H.
  induction H as [| v s r texts Hv _ IH]; [reflexivity |].
  simpl. rewrite Hv. now f_equal.
Qed.

Lemma unicode_rows (l : list (list pyval)) (texts : list (list string)) :
  mapM (mapM as_unicode) l = Some texts ->
  map (map PStr) texts = map (map (np_cell Unicode)) l.
Proof.
  intros H. apply mapM_Some_1 in H.
  induction H as [| r t l texts Hr _ IH]; [reflexivity |].
  simpl. f_equal; [now apply unicode_row | exact IH].
Qed.

(** The array holds one row per record, each cell stored as the element
    type of the array demands. *)
Lemma np_array_rows (tracks : list (list pyval)) (arr : ndarray) :
  np_array tracks = Ok arr ->
  nd_rows arr = map (map (np_cell (nd_dtype arr))) tracks.
Proof.
  unfold np_array. destruct tracks as [| t ts]; [now intros [= <-] |].
  destruct (existsb (existsb is_list) (t :: ts)); [discriminate |].
  destruct (mapM (mapM as_unicode) (t :: ts)) as [texts |] eqn:EM.
  - destruct (existsb (existsb is_str) (t :: ts)); intros [= <-]; simpl nd_rows;
      simpl nd_dtype.
    + now apply unicode_rows.
    + symmetry. now apply np_cell_same.
  - intros [= <-]. symmetry. now apply np_cell_same.
Qed.

(** In a text array every cell is text. *)
Lemma np_array_unicode (tracks : list (list pyval)) (arr : ndarray) :
  np_array tracks = Ok arr ->
  nd_dtype arr = Unicode ->
  Forall (Forall (fun v => is_str v = true)) (nd_rows arr).
Proof.
  unfold np_array. destruct tracks as [| t ts]; [now intros [= <-] |].
  destruct (existsb (existsb is_list) (t :: ts)); [discriminate |].
  destruct (mapM (mapM as_unicode) (t :: ts)) as [texts |].
  - destruct (existsb (existsb is_str) (t :: ts)); intros [= <-]; simpl;
      [intros _ | discriminate].
    apply Forall_forall. intros r Hr. apply list_elem_of_In, in_map_iff in Hr.
    destruct Hr as (x & <- & _). apply Forall_forall.
    intros v Hv. apply list_elem_of_In, in_map_iff in Hv.
    now destruct Hv as (s & <- & _).
  - now intros [= <-].
Qed.

(** Storing a cell neither makes it null nor fills a null. *)
Lemma np_cell_null (d : dtype) (v : pyval) : np_cell d v = PNone <-> v = PNone.
Proof.
  destruct d; simpl; try tauto.
  destruct v as [| z | s | l | dd]; simpl; try tauto.
  destruct (fits_machine_int z); split; discriminate.
Qed.


Lemma get_tracks_ok (playlist : pyval) (mood time : option string)
    (arr : ndarray) :
  get_tracks_from_playlist playlist mood time = Ok arr ->
  exists v items,
    getitem playlist "items" = Ok v /\
    py_iter v = Ok items /\
    Forall (fun it => item_info mood time it = Raise TypeError \/
                      exists info, item_info mood time it = Ok info) items /\
    np_array (omap (ok_info mood time) items) = Ok arr.
Proof.
  unfold get_tracks_from_playlist. intros H.
  destruct (getitem playlist "items") as [v |] eqn:E1; [| discriminate H].
  simpl in H. destruct (py_iter v) as [items |] eqn:E2; [| discriminate H].
  simpl in H.
  destruct (collect mood time items []) as [tracks |] eqn:E3; [| discriminate H].
  simpl in H. apply collect_ok in E3 as [-> HF].
  exists v, items. auto.
Qed.

Lemma np_array_unicode_src (tracks : list (list pyval)) (arr : ndarray) :
  np_array tracks = Ok arr ->
  nd_dtype arr = Unicode ->
  Forall (Forall (fun v => exists s, as_unicode v = Some s)) tracks.
Proof.
  unfold np_array. destruct tracks as [| t ts]; [now intros [= <-] |].
  destruct (existsb (existsb is_list) (t :: ts)); [discriminate |].
  destruct (mapM (mapM as_unicode) (t :: ts)) as [texts |] eqn:EM;
    [| now intros [= <-]].
  intros _ _. apply mapM_Some_1 in EM.
  induction EM as [| r tx l txs Hr _ IH]; constructor; [| exact IH].
  apply mapM_Some_1 in Hr. clear -Hr.
  induction Hr as [| v s r tx Hv _ IH]; constructor; [now exists s | exact IH].
Qed.

Lemma getitem_set (d : dict) (k k' : string) (v : pyval) :
  getitem (PDict (dict_set d k v)) k' =
  if String.eqb k k' then Ok v else getitem (PDict d) k'.
Proof.
  unfold getitem. induction d as [| [k0 v0] d IH]; simpl.
  - destruct (String.eqb k k'); reflexivity.
  - destruct (String.eqb k0 k) eqn:E0; simpl.
    + apply String.eqb_eq in E0. subst k0.
      destruct (String.eqb k k'); reflexivity.
    + destruct (String.eqb k0 k') eqn:E1; [| exact IH].
      destruct (String.eqb k k') eqn:E2; [| reflexivity].
      apply String.eqb_eq in E1, E2. subst.
      now rewrite String.eqb_refl in E0.
Qed.

Lemma getitem_dict (x : pyval) (k : string) (v : pyval) :
  getitem x k = Ok v -> exists d, x = PDict d /\ dict_get d k = Some v.
Proof.
  destruct x as [| | | | d]; simpl; try discriminate.
  destruct (dict_get d k) eqn:E; [| discriminate].
  intros [= <-]. now exists d.
Qed.

(** Items with the same outcome of the block give the same loop. *)
Lemma collect_ext (mood time : option string) (items items' : list pyval) :
  Forall2 (fun a b => item_info mood time a = item_info mood time b)
          items items' ->
  forall acc, collect mood time items acc = collect mood time items' acc.
Proof.
  induction 1 as [| a b items items' Hab _ IH]; intros acc; simpl;
    [reflexivity |].
  rewrite Hab. destruct (item_info mood time b) as [info | []]; auto.
Qed.

(** The record depends on the track object only through the eleven
    subscriptions of the block. *)
Lemma item_info_artists (mood time : option string) (item : pyval)
    (track first : pyval) (rest rest' : list pyval) :
  track_of time item = Ok track ->
  getitem track "artists" = Ok (PList (first :: rest)) ->
  item_info mood time (with_artists time item (first :: rest')) =
  item_info mood time item.
Proof.
  intros Ht Ha.
  destruct (getitem_dict _ _ _ Ha) as (d & -> & _).
  destruct time as [t |]; simpl in Ht.
  - injection Ht as ->. unfold with_artists, set_artists, item_info.
    rewrite !getitem_set, Ha. cbn -[getitem]. reflexivity.
  - destruct (getitem_dict _ _ _ Ht) as (w & -> & Hw).
    unfold with_artists, set_artists, item_info. rewrite Hw.
    rewrite getitem_set, Ht. cbn -[getitem].
    rewrite !getitem_set, Ha. cbn -[getitem]. reflexivity.
Qed.

(** C2, on the page of three items whose second item has no ['track'] key:
    the subscription [item['track']] raises a [KeyError], which the
    [except TypeError] clause does not catch, so the extraction raises and
    returns no record at all (the scenario expects the two records of items 1
    and 3). *)
Theorem missing_track_key_raises :
  get_tracks_from_playlist page_missing_key (Some "Happy") None
  = Raise KeyError.
Proof. reflexivity. Qed.

(** The same holds wherever the keyless item stands, whatever surrounds
    it. *)
Lemma missing_track_key_aborts (pre post : list pyval) (d : dict)
    (mood : option string) :
  Forall (fun it => item_info mood None it = Raise TypeError \/
                    exists info, item_info mood None it = Ok info) pre ->
  dict_get d "track" = None ->
  get_tracks_from_playlist (page (pre ++ PDict d :: post)) mood None
  = Raise KeyError.
Proof.
  intros Hpre Hd. unfold get_tracks_from_playlist, page. simpl.
  rewrite (collect_raise mood None pre (PDict d) post KeyError);
    [reflexivity | exact Hpre | | discriminate].
  unfold item_info. simpl. now rewrite Hd.
Qed.


(** C3, on the page whose one item has a track with a null name: no
    subscription of the block raises, so the item is not skipped, and its
    record is returned with a null in a required field.  The loop is meant
    to skip the tracks that have information missing; its only check is the
    [TypeError] of a subscription, which a null leaf value does not raise. *)
Theorem null_name_record_kept :
  exists arr,
    get_tracks_from_playlist page_null_name (Some "Happy") None = Ok arr /\
    ~ Forall required_non_null (nd_rows arr).
Proof.
  eexists. split; [reflexivity |].
  intros H. apply Forall_cons in H as [H _].
  unfold required_non_null in H. simpl in H.
  apply Forall_cons in H as [H _]. now apply H.
Qed.

(** The record that is returned there. *)
Lemma null_name_record :
  get_tracks_from_playlist page_null_name (Some "Happy") None
  = Ok (NdArray Object
          [[PNone; PStr "t1"; PStr "Ann"; PStr "a1"; PStr "Album";
            PStr "al1"; PInt 57; PStr "Happy"]]).
Proof. reflexivity. Qed.

(** The block returns a record exactly when every field of the item can be
    read. *)
Lemma item_fields_iff (mood time : option string) (item : pyval)
    (info : list pyval) :
  item_info mood time item = Ok info <-> item_fields mood time item info.
Proof.
  split; [apply item_info_ok |].
  intros (track & name & id & artists & artist & aname & aid & album
          & alname & alid & pop & H).
  destruct H as (Ht & Hn & Hi & Ha & H0 & Han & Hai & Hal & Haln & Hali
                 & Hp & ->).
  unfold item_info. destruct time as [t |]; simpl in Ht.
  - injection Ht as ->.
    rewrite Hn; cbn [bind]. rewrite Hi; cbn [bind]. rewrite Ha; cbn [bind].
    rewrite H0; cbn [bind]. rewrite Han; cbn [bind]. rewrite Hai; cbn [bind].
    rewrite Hal; cbn [bind]. rewrite Haln; cbn [bind]. rewrite Hali; cbn [bind].
    rewrite Hp; cbn [bind]. reflexivity.
  - rewrite Ht; cbn [bind].
    rewrite Hn; cbn [bind]. rewrite Hi; cbn [bind]. rewrite Ha; cbn [bind].
    rewrite H0; cbn [bind]. rewrite Han; cbn [bind]. rewrite Hai; cbn [bind].
    rewrite Hal; cbn [bind]. rewrite Haln; cbn [bind]. rewrite Hali; cbn [bind].
    rewrite Hp; cbn [bind]. reflexivity.
Qed.

(** The rows made of the records of the loop are the rows of the items
    whose fields can be read, in order. *)
Lemma extracted_intro (mood time : option string)
    (keep : pyval -> list pyval -> list pyval -> Prop)
    (f : list pyval -> list pyval) (Q : list pyval -> Prop)
    (items : list pyval) :
  Forall (fun it => item_info mood time it = Raise TypeError \/
                    exists info, item_info mood time it = Ok info) items ->
  Forall Q (omap (ok_info mood time) items) ->
  (forall item info,
     item_fields mood time item info -> Q info -> keep item info (f info)) ->
  extracted mood time keep items (map f (omap (ok_info mood time) items)).
Proof.
  intros HF HQ Hkeep. induction HF as [| it items Hit _ IH]; [constructor |].
  cbn [omap list_omap] in *. unfold ok_info at 1. unfold ok_info at 1 in HQ.
  destruct Hit as [E | [info E]]; rewrite E in *.
  - apply extracted_skip; [| now apply IH].
    intros info Hinfo. apply item_fields_iff in Hinfo. congruence.
  - apply Forall_cons in HQ as [Hq HQ]. cbn [map].
    apply (extracted_keep _ _ _ it info).
    + now apply item_fields_iff.
    + apply Hkeep; [now apply item_fields_iff | exact Hq].
    + now apply IH.
Qed.


(** Every record of the loop carries the label. *)
Lemma records_carry_label (mood time : option string) (items : list pyval) :
  Forall (fun r => of_opt mood ∈ r) (omap (ok_info mood time) items).
Proof.
  apply Forall_forall. intros info Hinfo.
  apply list_elem_of_omap in Hinfo as (item & _ & Hok).
  unfold ok_info in Hok.
  destruct (item_info mood time item) eqn:E; [| discriminate].
  injection Hok as ->. apply item_info_ok in E.
  destruct E as (? & ? & ? & ? & ? & ? & ? & ? & ? & ? & ? & E).
  destruct E as (_ & _ & _ & _ & _ & _ & _ & _ & _ & _ & _ & ->).
  apply elem_of_app. left. do 7 apply list_elem_of_further.
  apply list_elem_of_here.
Qed.

(** A text array of records needs a string label. *)
Lemma np_array_unicode_label (mood : option string)
    (tracks : list (list pyval)) (arr : ndarray) :
  Forall (fun r => of_opt mood ∈ r) tracks ->
  np_array tracks = Ok arr ->
  nd_dtype arr = Unicode ->
  exists m, mood = Some m.
Proof.
  intros HF Harr Hu.
  pose proof (np_array_unicode_src _ _ Harr Hu) as Hsrc.
  destruct tracks as [| t ts].
  - injection Harr as <-. discriminate Hu.
  - apply Forall_cons in HF as [Ht _]. apply Forall_cons in Hsrc as [Hs _].
    destruct mood as [m |]; [now exists m |].
    destruct (proj1 (Forall_forall _ _) Hs _ Ht) as [s Hs']. discriminate Hs'.
Qed.



(** The extraction of a page made of a list of items is the loop over that
    list. *)
Lemma get_tracks_page (items : list pyval) (mood time : option string) :
  get_tracks_from_playlist (page items) mood time
  = let? tracks := collect mood time items [] in np_array tracks.
Proof. reflexivity. Qed.

(** C8: in both input shapes, the rows that the extraction returns are, in
    the order of the items, those of the items whose fields can all be read,
    and the artist name and the artist id of a row are, as the array stores
    them, the name and the id of the first element of the artist list of its
    item.  The artists listed after the first are not read: with any other
    artists after the first of an item of the page, the extraction returns
    the same array. *)
Theorem first_artist_only (playlist : pyval) (mood time : option string)
    (arr : ndarray) :
  get_tracks_from_playlist playlist mood time = Ok arr ->
  exists items,
    (let? v := getitem playlist "items" in py_iter v) = Ok items /\
    extracted mood time
      (fun item info r =>
         r = map (np_cell (nd_dtype arr)) info /\
         first_artist_cells time (nd_dtype arr) item r)
      items (nd_rows arr) /\
    forall pre item post track first rest rest',
      items = pre ++ item :: post ->
      track_of time item = Ok track ->
      getitem track "artists" = Ok (PList (first :: rest)) ->
      get_tracks_from_playlist
        (page (pre ++ with_artists time item (first :: rest') :: post))
        mood time
      = Ok arr.
Proof.
  intros H. unfold get_tracks_from_playlist in H.
  destruct (getitem playlist "items") as [v |] eqn:E1; [| discriminate H].
  cbn [bind] in H. destruct (py_iter v) as [items |] eqn:E2; [| discriminate H].
  cbn [bind] in H.
  destruct (collect mood time items []) as [tracks |] eqn:E3;
    [| discriminate H].
  cbn [bind] in H. pose proof E3 as E3'. apply collect_ok in E3' as [-> HF].
  exists items. split; [exact E2 |]. split.
  - pose proof (np_array_rows _ _ H) as Hrows. rewrite Hrows. simpl.
    apply (extracted_intro mood time _ (map (np_cell (nd_dtype arr)))
             (fun _ => True)); [exact HF | now apply Forall_true |].
    intros item info Hfields _. split; [reflexivity |].
    destruct Hfields as (track & name & id & artists & artist & aname & aid
                         & album & alname & alid & pop & Hf).
    destruct Hf as (Ht & _ & _ & Ha & H0 & Han & Hai & _ & _ & _ & _ & ->).
    exists track, artists, artist, aname, aid.
    repeat (split; [assumption |]). split; reflexivity.
  - intros pre item post track first rest rest' -> Ht Ha.
    rewrite get_tracks_page.
    rewrite (collect_ext mood time
               (pre ++ with_artists time item (first :: rest') :: post)
               (pre ++ item :: post)).
    + rewrite E3. exact H.
    + apply Forall2_app; [now apply Forall_Forall2_diag, Forall_true |].
      constructor;
        [exact (item_info_artists mood time item track first rest rest' Ht Ha) |].
      now apply Forall_Forall2_diag, Forall_true.
Qed.

Lemma first_artist_only_witness :
  exists items,
    (let? v := getitem page_one "items" in py_iter v) = Ok items /\
    extracted (Some "Happy") None
      (fun item info r =>
         r = map (np_cell Unicode) info /\
         first_artist_cells None Unicode item r)
      items
      [[PStr "One"; PStr "t1"; PStr "Ann"; PStr "a1"; PStr "Album";
        PStr "al1"; PStr "57"; PStr "Happy"]] /\
    get_tracks_from_playlist
      (page [with_artists None (membership track1)
               [artist_obj "Ann" "a1"; artist_obj "Zed" "a9";
                artist_obj "Bob" "a2"]])
      (Some "Happy") None
    = Ok (NdArray Unicode
            [[PStr "One"; PStr "t1"; PStr "Ann"; PStr "a1"; PStr "Album";
              PStr "al1"; PStr "57"; PStr "Happy"]]).
Proof.
  destruct (first_artist_only page_one (Some "Happy") None
              (NdArray Unicode
                 [[PStr "One"; PStr "t1"; PStr "Ann"; PStr "a1"; PStr "Album";
                   PStr "al1"; PStr "57"; PStr "Happy"]]) eq_refl)
    as (items & Hit & Hrows & Hrest).
  exists items. split; [exact Hit |]. split; [exact Hrows |].
  simpl in Hit. injection Hit as <-.
  exact (Hrest [] (membership track1) [] track1 (artist_obj "Ann" "a1")
           [artist_obj "Bob" "a2"]
           [artist_obj "Zed" "a9"; artist_obj "Bob" "a2"]
           eq_refl eq_refl eq_refl).
Defined.

(** ** Deduplication *)

Lemma keep_first_sublist (rs : list (Z * list pyval)) :
  forall seen, sublist (keep_first seen rs) rs.
Proof.
  induction rs as [| r rs IH]; intros seen; simpl; [constructor |].
  destruct (existsb (row_eqb (snd r)) seen).
  - apply sublist_cons, IH.
  - apply sublist_skip, IH.
Qed.

Lemma keep_first_elem (rs : list (Z * list pyval)) :
  forall seen r, r ∈ keep_first seen rs -> r ∈ rs.
Proof.
  induction rs as [| r0 rs IH]; intros seen r; simpl; [trivial |].
  destruct (existsb (row_eqb (snd r0)) seen).
  - intros H. apply list_elem_of_further. now apply (IH seen).
  - rewrite !elem_of_cons. intros [-> | H]; [now left |].
    right. now apply (IH (snd r0 :: seen)).
Qed.

(** Only the membership of a row among the rows seen matters. *)
Lemma keep_first_seen_ext (rs : list (Z * list pyval)) :
  forall seen seen',
    (forall x, x ∈ seen <-> x ∈ seen') ->
    keep_first seen rs = keep_first seen' rs.
Proof.
  induction rs as [| r rs IH]; intros seen seen' Heq; simpl; [reflexivity |].
  assert (Hb : existsb (row_eqb (snd r)) seen
               = existsb (row_eqb (snd r)) seen').
  { apply eq_true_iff_eq. rewrite !existsb_row_eqb. apply Heq. }
  rewrite Hb. destruct (existsb (row_eqb (snd r)) seen').
  - now apply IH.
  - f_equal. apply IH. intros x. rewrite !elem_of_cons. now rewrite Heq.
Qed.

(** What is kept of a suffix depends on the rows before it only through
    their cells. *)
Lemma keep_first_app (pre post : list (Z * list pyval)) :
  forall seen,
    keep_first seen (pre ++ post)
    = keep_first seen pre ++ keep_first (map snd pre ++ seen) post.
Proof.
  induction pre as [| r pre IH]; intros seen; simpl; [reflexivity |].
  destruct (existsb (row_eqb (snd r)) seen) eqn:E.
  - rewrite IH. f_equal. apply keep_first_seen_ext. intros x.
    apply existsb_row_eqb in E.
    rewrite elem_of_cons, !elem_of_app. split; [tauto |].
    intros [-> | H]; tauto.
  - simpl. f_equal. rewrite IH. f_equal. apply keep_first_seen_ext.
    intros x. rewrite elem_of_cons, !elem_of_app, elem_of_cons. tauto.
Qed.

Lemma keep_first_fresh (rs : list (Z * list pyval)) :
  forall seen r, r ∈ keep_first seen rs -> snd r ∉ seen.
Proof.
  induction rs as [| r0 rs IH]; intros seen r; simpl.
  - intros H. now apply elem_of_nil in H.
  - destruct (existsb (row_eqb (snd r0)) seen) eqn:E; [apply IH |].
    intros H. apply elem_of_cons in H as [-> | H].
    + intros Hin. apply existsb_row_eqb in Hin. congruence.
    + apply IH in H. intros Hin. apply H. now apply list_elem_of_further.
Qed.

Lemma keep_first_NoDup (rs : list (Z * list pyval)) :
  forall seen, NoDup (map snd (keep_first seen rs)).
Proof.
  induction rs as [| r rs IH]; intros seen; simpl; [constructor |].
  destruct (existsb (row_eqb (snd r)) seen); [apply IH |].
  simpl. constructor; [| apply IH].
  intros Hin. apply list_elem_of_fmap in Hin as (r' & Heq & Hin).
  apply keep_first_fresh in Hin. apply Hin. rewrite Heq.
  apply list_elem_of_here.
Qed.

(** Rows that are new and pairwise different are all kept. *)
Lemma keep_first_id (rs : list (Z * list pyval)) :
  forall seen,
    Forall (fun r => snd r ∉ seen) rs ->
    NoDup (map snd rs) ->
    keep_first seen rs = rs.
Proof.
  induction rs as [| r rs IH]; intros seen HF HN; simpl; [reflexivity |].
  apply Forall_cons in HF as [Hr HF]. simpl in HN.
  apply NoDup_cons in HN as [Hnin HN].
  destruct (existsb (row_eqb (snd r)) seen) eqn:E.
  - apply existsb_row_eqb in E. contradiction.
  - f_equal. apply IH; [| exact HN].
    apply Forall_forall. intros r' Hr'. rewrite elem_of_cons.
    intros [Heq | Hin].
    + apply Hnin. rewrite <- Heq. apply list_elem_of_fmap. now exists r'.
    + now apply (proj1 (Forall_forall _ _) HF r' Hr').
Qed.

Lemma keep_first_idem (rs : list (Z * list pyval)) (seen : list (list pyval)) :
  keep_first seen (keep_first seen rs) = keep_first seen rs.
Proof.
  apply keep_first_id; [| apply keep_first_NoDup].
  apply Forall_forall. intros r. apply keep_first_fresh.
Qed.

(** A row of the table is still represented after the removal. *)
Lemma keep_first_complete (rs : list (Z * list pyval)) :
  forall seen r,
    r ∈ rs -> snd r ∈ seen \/ snd r ∈ map snd (keep_first seen rs).
Proof.
  induction rs as [| r0 rs IH]; intros seen r Hin.
  - now apply elem_of_nil in Hin.
  - simpl. apply elem_of_cons in Hin as [-> | Hin].
    + destruct (existsb (row_eqb (snd r0)) seen) eqn:E.
      * left. now apply existsb_row_eqb.
      * right. simpl. apply list_elem_of_here.
    + destruct (existsb (row_eqb (snd r0)) seen) eqn:E; [now apply IH |].
      destruct (IH (snd r0 :: seen) r Hin) as [H | H].
      * apply elem_of_cons in H as [-> | H]; [| now left].
        right. simpl. apply list_elem_of_here.
      * right. simpl. now apply list_elem_of_further.
Qed.

Lemma hashable_frame_check (df : DataFrame) :
  forallb (fun r => forallb hashable (snd r)) (rows df) = true
  <-> hashable_frame df.
Proof.
  unfold hashable_frame. rewrite forallb_forall, Forall_forall.
  split; intros H r Hr.
  - apply list_elem_of_In in Hr. specialize (H r Hr).
    rewrite forallb_forall in H. apply Forall_forall. intros v Hv.
    apply H. now apply list_elem_of_In.
  - apply list_elem_of_In in Hr. specialize (H r Hr).
    rewrite Forall_forall in H. apply forallb_forall. intros v Hv.
    apply H. now apply list_elem_of_In.
Qed.

(** Whenever [drop_duplicates] returns on a table that has a column, the
    result holds the first occurrence of each row. *)
Lemma drop_duplicates_ok (df out : DataFrame) :
  columns df <> [] ->
  drop_duplicates df = Ok out ->
  out = mkDataFrame (columns df) (keep_first [] (rows df)).
Proof.
  destruct df as [cols rs]. unfold drop_duplicates. simpl. intros Hc.
  destruct cols as [| c [| c' cols]]; [congruence | |];
    destruct rs as [| r rs]; try (intros [= <-]; reflexivity).
  destruct (forallb (fun r => forallb hashable (snd r)) (r :: rs));
    [intros [= <-]; reflexivity | discriminate].
Qed.

Lemma drop_duplicates_hashable (df : DataFrame) :
  hashable_frame df ->
  columns df <> [] ->
  drop_duplicates df
  = Ok (mkDataFrame (columns df) (keep_first [] (rows df))).
Proof.
  intros Hh Hc. apply hashable_frame_check in Hh.
  destruct df as [cols rs]. unfold drop_duplicates. simpl in *.
  destruct cols as [| c [| c' cols]]; [congruence | |];
    destruct rs as [| r rs]; try reflexivity.
  now rewrite Hh.
Qed.

(** A table of one column is deduplicated whatever its cells are. *)
Lemma drop_duplicates_one_column (c : string) (rs : list (Z * list pyval)) :
  drop_duplicates (mkDataFrame [c] rs)
  = Ok (mkDataFrame [c] (keep_first [] rs)).
Proof. now destruct rs. Qed.

(** A table without columns is returned as it is. *)
Lemma drop_duplicates_no_column (rs : list (Z * list pyval)) :
  drop_duplicates (mkDataFrame [] rs) = Ok (mkDataFrame [] rs).
Proof. reflexivity. Qed.

(** With two columns or more and a row, the cells are hashed. *)
Lemma drop_duplicates_hashes (df out : DataFrame) :
  (2 <= length (columns df))%nat ->
  rows df <> [] ->
  drop_duplicates df = Ok out ->
  hashable_frame df.
Proof.
  destruct df as [cols rs]. unfold drop_duplicates. simpl. intros Hc Hr.
  destruct cols as [| c [| c' cols]]; simpl in Hc; [lia | lia |].
  destruct rs as [| r rs]; [congruence |].
  destruct (forallb (fun r => forallb hashable (snd r)) (r :: rs)) eqn:E;
    [| discriminate].
  intros _. now apply hashable_frame_check.
Qed.

Lemma drop_duplicates_unhashable (df : DataFrame) :
  (2 <= length (columns df))%nat ->
  rows df <> [] ->
  ~ hashable_frame df ->
  drop_duplicates df = Raise TypeError.
Proof.
  destruct df as [cols rs]. unfold drop_duplicates. simpl. intros Hc Hr Hn.
  destruct cols as [| c [| c' cols]]; simpl in Hc; [lia | lia |].
  destruct rs as [| r rs]; [congruence |].
  destruct (forallb (fun r => forallb hashable (snd r)) (r :: rs)) eqn:E;
    [| reflexivity].
  exfalso. apply Hn. now apply hashable_frame_check.
Qed.

(** The result of a removal is returned as it is by a second one. *)
Lemma drop_duplicates_kept (cols : list string) (rs : list (Z * list pyval))
    (out : DataFrame) :
  drop_duplicates (mkDataFrame cols rs) = Ok out ->
  drop_duplicates (mkDataFrame cols (keep_first [] rs))
  = Ok (mkDataFrame cols (keep_first [] rs)).
Proof.
  intros Hd. pose proof (keep_first_idem rs []) as Hid.
  destruct cols as [| c [| c' cols]]; [reflexivity | |].
  - rewrite drop_duplicates_one_column. now rewrite Hid.
  - destruct (keep_first [] rs) as [| k kf] eqn:Ek; [reflexivity |].
    assert (Hne : rs <> []) by (intros ->; discriminate).
    apply drop_duplicates_hashes in Hd; [| simpl; lia | exact Hne].
    rewrite drop_duplicates_hashable.
    + cbn [columns rows]. now rewrite Hid.
    + unfold hashable_frame in *. simpl in *.
      apply Forall_forall. intros r Hr.
      apply (proj1 (Forall_forall _ _) Hd).
      apply (keep_first_elem _ []). now rewrite Ek.
    + simpl. congruence.
Qed.

(** The row that follows [pre] is dropped when one of [pre] has its cells,
    and kept otherwise. *)
Lemma keep_first_position (pre post : list (Z * list pyval))
    (r : Z * list pyval) :
  (snd r ∈ map snd pre ->
   keep_first [] (pre ++ r :: post)
   = keep_first [] pre ++ keep_first (map snd (pre ++ [r])) post) /\
  (snd r ∉ map snd pre ->
   keep_first [] (pre ++ r :: post)
   = keep_first [] pre ++ r :: keep_first (map snd (pre ++ [r])) post).
Proof.
  split; intros E; rewrite keep_first_app; f_equal; rewrite app_nil_r; simpl.
  - apply existsb_row_eqb in E as Hb. rewrite Hb.
    apply keep_first_seen_ext. intros x.
    rewrite map_app, elem_of_app. simpl. rewrite list_elem_of_singleton.
    split; [tauto |]. intros [H | ->]; assumption.
  - destruct (existsb (row_eqb (snd r)) (map snd pre)) eqn:Hb.
    + apply existsb_row_eqb in Hb. contradiction.
    + f_equal. apply keep_first_seen_ext. intros x.
      rewrite map_app, elem_of_app, elem_of_cons. simpl.
      rewrite list_elem_of_singleton. tauto.
Qed.

(** C4: on a table of hashable cells that has a column, [drop_duplicates]
    returns a table with the same columns whose rows are a subsequence of the
    input rows, without two rows of equal cells, and in which every input row
    is still represented; the row at a position is removed exactly when a row
    before it has the same cells in all columns, and is kept otherwise. *)
Theorem drop_duplicates_exact (df : DataFrame) :
  hashable_frame df ->
  columns df <> [] ->
  exists out,
    drop_duplicates df = Ok out /\
    columns out = columns df /\
    sublist (rows out) (rows df) /\
    NoDup (map snd (rows out)) /\
    (forall r, r ∈ rows df -> snd r ∈ map snd (rows out)) /\
    forall pre r post,
      rows df = pre ++ r :: post ->
      (snd r ∈ map snd pre ->
       rows out
       = keep_first [] pre ++ keep_first (map snd (pre ++ [r])) post) /\
      (snd r ∉ map snd pre ->
       rows out
       = keep_first [] pre ++ r :: keep_first (map snd (pre ++ [r])) post).
Proof.
  intros Hh Hc. rewrite (drop_duplicates_hashable df Hh Hc).
  eexists. split; [reflexivity |].
  simpl. split; [reflexivity |]. split; [apply keep_first_sublist |].
  split; [apply keep_first_NoDup |]. split.
  - intros r Hr. destruct (keep_first_complete _ [] r Hr) as [H | H];
      [now apply elem_of_nil in H | exact H].
  - intros pre r post ->. apply keep_first_position.
Qed.

Lemma drop_duplicates_exact_witness :
  exists out,
    drop_duplicates table_repeated = Ok out /\
    rows out = [(0, track_row 0 "Happy"); (2, track_row 0 "Sad")].
Proof.
  assert (Hh : hashable_frame table_repeated).
  { unfold hashable_frame. simpl. repeat constructor. }
  assert (Hc : columns table_repeated <> []) by discriminate.
  destruct (drop_duplicates_exact table_repeated Hh Hc)
    as (out & Hout & _ & _ & _ & _ & _).
  exists out. split; [exact Hout |].
  vm_compute in Hout. now injection Hout as <-.
Defined.

(** Two rows with the same cells in all columns collapse to the first. *)
Lemma identical_rows_collapse (cols : list string) (i j : Z)
    (r : list pyval) :
  Forall (fun v => hashable v = true) r ->
  cols <> [] ->
  drop_duplicates (mkDataFrame cols [(i, r); (j, r)])
  = Ok (mkDataFrame cols [(i, r)]).
Proof.
  intros Hr Hc. rewrite drop_duplicates_hashable.
  - do 2 f_equal.
    destruct (keep_first_position [(i, r)] [] (j, r)) as [H _].
    apply H. simpl. apply list_elem_of_here.
  - repeat constructor; exact Hr.
  - exact Hc.
Qed.

(** Two rows that differ, be it in the mood alone, both survive. *)
Lemma different_rows_survive (cols : list string) (i j : Z)
    (r r' : list pyval) :
  Forall (fun v => hashable v = true) r ->
  Forall (fun v => hashable v = true) r' ->
  r <> r' ->
  cols <> [] ->
  drop_duplicates (mkDataFrame cols [(i, r); (j, r')])
  = Ok (mkDataFrame cols [(i, r); (j, r')]).
Proof.
  intros Hr Hr' Hne Hc. rewrite drop_duplicates_hashable.
  - do 2 f_equal.
    destruct (keep_first_position [(i, r)] [] (j, r')) as [_ H].
    apply H. simpl. rewrite list_elem_of_singleton. congruence.
  - repeat constructor; assumption.
  - exact Hc.
Qed.

Lemma rows_differing_in_mood_survive (cols : list string) (i j : Z)
    (fields : list pyval) (mood mood' : string) :
  Forall (fun v => hashable v = true) fields ->
  mood <> mood' ->
  cols <> [] ->
  drop_duplicates
    (mkDataFrame cols [(i, fields ++ [PStr mood]); (j, fields ++ [PStr mood'])])
  = Ok (mkDataFrame cols
          [(i, fields ++ [PStr mood]); (j, fields ++ [PStr mood'])]).
Proof.
  intros Hf Hm Hc. apply different_rows_survive.
  - apply Forall_app. split; [exact Hf | now repeat constructor].
  - apply Forall_app. split; [exact Hf | now repeat constructor].
  - intros H. apply app_inv_head in H. congruence.
  - exact Hc.
Qed.

(** C5: removing the duplicate rows of a table and then those of the result
    is the same as removing them once; a table that is refused for its
    unhashable cells is refused both ways. *)
Theorem drop_duplicates_idempotent (df : DataFrame) :
  (let? once := drop_duplicates df in drop_duplicates once)
  = drop_duplicates df.
Proof.
  destruct (drop_duplicates df) as [once | e] eqn:E; [| reflexivity].
  simpl. destruct df as [cols rs].
  destruct cols as [| c cols].
  - rewrite drop_duplicates_no_column in E. injection E as <-.
    apply drop_duplicates_no_column.
  - pose proof E as E'. apply drop_duplicates_ok in E'; [| discriminate].
    subst once. simpl. exact (drop_duplicates_kept _ _ _ E).
Qed.

(** ** Feature augmentation *)

Lemma mapR_Forall2 {A B} (f : A -> result B) (l : list A) (ys : list B) :
  mapR f l = Ok ys <-> Forall2 (fun x y => f x = Ok y) l ys.
Proof.
  revert ys. induction l as [| x l IH]; intros ys; simpl.
  - split; [intros [= <-]; constructor | intros H; now inversion H].
  - split.
    + destruct (f x) as [y |] eqn:E; [| discriminate]. simpl.
      destruct (mapR f l) as [ys' |] eqn:E'; [| discriminate]. simpl.
      intros [= <-]. constructor; [exact E | now apply IH].
    + intros H. inversion H as [| ? y ? ys' Hy Hys]; subst.
      rewrite Hy. simpl. apply IH in Hys. now rewrite Hys.
Qed.

Lemma range_index_length {A} (l : list A) :
  forall start, length (range_index start l) = length l.
Proof.
  induction l as [| x l IH]; intros start; simpl; [reflexivity |].
  now rewrite IH.
Qed.

Lemma drop_columns_nrows (df out : DataFrame) (labels : list string) :
  drop_columns df labels = Ok out -> nrows out = nrows df.
Proof.
  unfold drop_columns. destruct (forallb _ labels); [| discriminate].
  intros [= <-]. unfold nrows. simpl. apply length_map.
Qed.

Lemma filter_key_none (j : nat) (k : pyval) (right : list (Z * list pyval)) :
  k ∉ map (fun r => cell (snd r) j) right ->
  filter (fun r => pyval_eqb (cell (snd r) j) k = true) right = [].
Proof.
  induction right as [| r right IH]; intros Hnin; [reflexivity |].
  simpl in Hnin. apply not_elem_of_cons in Hnin as [Hne Hnin].
  rewrite filter_cons.
  destruct (decide (pyval_eqb (cell (snd r) j) k = true)) as [E | E].
  - apply pyval_eqb_eq in E. congruence.
  - now apply IH.
Qed.

(** A left row without a partner is kept once, its feature cells missing. *)
Lemma join_row_unmatched (i j width : nat) (right : list (Z * list pyval))
    (lrow : list pyval) :
  cell lrow i ∉ map (fun r => cell (snd r) j) right ->
  join_row i j width right lrow = [lrow ++ repeat PNone width].
Proof.
  intros Hnin. unfold join_row. now rewrite filter_key_none.
Qed.

(** When the keys of the right table are pairwise different, a left row has
    at most one partner and gives one row. *)
Lemma join_row_one (i j width : nat) (right : list (Z * list pyval))
    (lrow : list pyval) :
  NoDup (map (fun r => cell (snd r) j) right) ->
  length (join_row i j width right lrow) = 1%nat.
Proof.
  intros Hnd. unfold join_row.
  induction right as [| r right IH]; [reflexivity |].
  simpl in Hnd. apply NoDup_cons in Hnd as [Hnin Hnd].
  rewrite filter_cons.
  destruct (decide (pyval_eqb (cell (snd r) j) (cell lrow i) = true)) as [E | E].
  - apply pyval_eqb_eq in E. rewrite E in Hnin.
    now rewrite filter_key_none.
  - now apply IH.
Qed.

Lemma flat_map_length_one {A B} (f : A -> list B) (l : list A) :
  (forall x, length (f x) = 1%nat) -> length (flat_map f l) = length l.
Proof.
  intros Hf. induction l as [| x l IH]; simpl; [reflexivity |].
  rewrite length_app, Hf, IH. reflexivity.
Qed.

(** The left join keeps the number of rows when no two rows of the right
    table have the same key. *)
Lemma merge_left_nrows_unique (left right out : DataFrame) (on : string)
    (j : nat) :
  key_pos right on = Ok j ->
  NoDup (cells_at right j) ->
  merge_left left right on = Ok out ->
  nrows out = nrows left.
Proof.
  intros Hj Hnd. unfold merge_left. rewrite Hj. simpl.
  destruct (key_pos left on) as [i |]; [| discriminate]. simpl.
  destruct (keys_clash _ _); [discriminate |]. simpl.
  intros [= <-]. unfold nrows. simpl.
  rewrite range_index_length. apply flat_map_length_one.
  intros l. now apply join_row_one.
Qed.

Section FeatureProps.

Variable sp_audio_features : pyval -> result (list (option dict)).

Lemma generate_features_unfold (df : DataFrame) (track_id : string) :
  generate_features sp_audio_features df track_id =
  let? features_df := features_frame sp_audio_features df track_id in
  let? df' := merge_left df features_df "track_id" in
  if has_col (columns df') "index" then drop_columns df' ["index"]
  else Ok df'.
Proof.
  unfold generate_features, features_frame.
  destruct (lookup_features sp_audio_features df track_id); [| reflexivity].
  simpl. destruct (drop_columns _ _); reflexivity.
Qed.

(** X12: The number of rows is kept when the feature objects that came back have
    pairwise different identifiers. *)
Lemma generate_features_nrows_unique (df fdf out : DataFrame)
    (track_id : string) (j : nat) :
  features_frame sp_audio_features df track_id = Ok fdf ->
  key_pos fdf "track_id" = Ok j ->
  NoDup (cells_at fdf j) ->
  generate_features sp_audio_features df track_id = Ok out ->
  nrows out = nrows df.
Proof.
  intros Hf Hj Hnd. rewrite generate_features_unfold, Hf. simpl.
  destruct (merge_left df fdf "track_id") as [m |] eqn:Em; [| discriminate].
  simpl. apply (merge_left_nrows_unique _ _ _ _ _ Hj Hnd) in Em.
  destruct (has_col (columns m) "index").
  - intros H. apply drop_columns_nrows in H. congruence.
  - intros [= <-]. exact Em.
Qed.

(** C9: when the lookup of every identifier of the table answers with an
    empty result, no feature object is left after the filter, the feature
    table has no column, the drop of the three URI columns raises a
    [KeyError], and so does [generate_features] (whether or not the table has
    rows). *)
Theorem all_lookups_empty_raises (df : DataFrame) (track_id : string)
    (ids : list pyval) :
  getcol df track_id = Ok ids ->
  (forall id, id ∈ ids ->
     exists e rest, sp_audio_features id = Ok (e :: rest) /\ truthy e = None) ->
  (exists fl, lookup_features sp_audio_features df track_id = Ok fl /\
              length fl = length ids /\ omap truthy fl = []) /\
  drop_columns (pd_DataFrame []) ["uri"; "track_href"; "analysis_url"]
  = Raise KeyError /\
  generate_features sp_audio_features df track_id = Raise KeyError.
Proof.
  intros Hids Hall.
  assert (Hfl : exists fl,
             mapR (fun _id => let? r := sp_audio_features _id in head0 r) ids
             = Ok fl /\ length fl = length ids /\ omap truthy fl = []).
  { clear Hids. induction ids as [| id ids IH].
    - now exists [].
    - destruct (Hall id) as (e & rest & He & Ht); [apply list_elem_of_here |].
      destruct IH as (fl & Hfl & Hlen & Hom).
      { intros id' Hin. apply Hall. now apply list_elem_of_further. }
      exists (e :: fl). simpl. rewrite He. simpl. rewrite Hfl. simpl.
      split; [reflexivity |]. split; [now rewrite Hlen |].
      cbn. now rewrite Ht. }
  destruct Hfl as (fl & Hfl & Hlen & Hom).
  assert (Hlk : lookup_features sp_audio_features df track_id = Ok fl).
  { unfold lookup_features. now rewrite Hids. }
  split; [now exists fl |]. split; [reflexivity |].
  unfold generate_features. rewrite Hlk. simpl. now rewrite Hom.
Qed.

End FeatureProps.

Lemma all_lookups_empty_raises_witness :
  generate_features service_none table_two_moods "track_id" = Raise KeyError.
Proof.
  refine (proj2 (proj2 (all_lookups_empty_raises service_none table_two_moods
                          "track_id" [PStr "t1"; PStr "t1"] eq_refl _))).
  intros id _. exists None, []. split; reflexivity.
Defined.

(** C1, on the table that holds one track under two moods, every lookup
    answering: the two rows share their track id, the feature table has one
    row per lookup and so two rows with that id, and the left join pairs
    each of the two rows with both: four rows come back for two. *)
Theorem duplicate_track_ids_multiply_rows :
  exists out,
    generate_features service_all table_two_moods "track_id" = Ok out /\
    nrows table_two_moods = 2%nat /\
    nrows out = 4%nat.
Proof.
  eexists. split; [vm_compute; reflexivity |]. split; reflexivity.
Qed.

(** ** Genre augmentation *)

Lemma col_pos_None (cols : list string) (c : string) :
  col_pos cols c = None <-> has_col cols c = false.
Proof.
  induction cols as [| c' cols IH]; simpl; [tauto |].
  rewrite (String.eqb_sym c c').
  destruct (String.eqb c' c); simpl; [split; discriminate |].
  rewrite <- IH. destruct (col_pos cols c); simpl; split; congruence.
Qed.

Lemma col_pos_lt (cols : list string) (c : string) :
  forall i, col_pos cols c = Some i -> (i < length cols)%nat.
Proof.
  induction cols as [| c' cols IH]; intros i; simpl; [discriminate |].
  destruct (String.eqb c' c).
  - intros [= <-]. lia.
  - destruct (col_pos cols c) as [j |]; simpl; [| discriminate].
    intros [= <-]. specialize (IH j eq_refl). lia.
Qed.

Lemma col_pos_app_old (cols more : list string) (c : string) (i : nat) :
  col_pos cols c = Some i -> col_pos (cols ++ more) c = Some i.
Proof.
  revert i. induction cols as [| c' cols IH]; intros i; simpl; [discriminate |].
  destruct (String.eqb c' c); [trivial |].
  destruct (col_pos cols c) as [j |]; simpl; [| discriminate].
  intros [= <-]. now rewrite (IH j eq_refl).
Qed.

Lemma col_pos_app_new (cols : list string) (c : string) :
  col_pos cols c = None -> col_pos (cols ++ [c]) c = Some (length cols).
Proof.
  induction cols as [| c' cols IH]; simpl.
  - now rewrite String.eqb_refl.
  - destruct (String.eqb c' c); [discriminate |].
    destruct (col_pos cols c); simpl; [discriminate |].
    intros _. now rewrite IH.
Qed.

(** The position found for a label holds that label, so two labels found
    at one position are the same. *)
Lemma col_pos_inj (cols : list string) (c c' : string) :
  forall i, col_pos cols c = Some i -> col_pos cols c' = Some i -> c = c'.
Proof.
  induction cols as [| c0 cols IH]; intros i; simpl; [discriminate |].
  destruct (String.eqb c0 c) eqn:E, (String.eqb c0 c') eqn:E'.
  - intros _ _. apply String.eqb_eq in E, E'. congruence.
  - intros [= <-]. destruct (col_pos cols c'); discriminate.
  - destruct (col_pos cols c); simpl; [| discriminate].
    intros [= <-]. discriminate.
  - destruct (col_pos cols c) as [j |]; simpl; [| discriminate].
    destruct (col_pos cols c') as [j' |]; simpl; [| discriminate].
    intros [= <-] [= ->]. now apply (IH j).
Qed.

Lemma cell_set_nth_eq (r : list pyval) (v : pyval) :
  forall i, (i < length r)%nat -> cell (set_nth i v r) i = v.
Proof.
  unfold cell. induction r as [| x r IH]; intros i Hi; simpl in Hi; [lia |].
  destruct i as [| i]; simpl; [reflexivity |]. apply IH. lia.
Qed.

Lemma cell_set_nth_ne (r : list pyval) (v : pyval) :
  forall i j, i <> j -> cell (set_nth i v r) j = cell r j.
Proof.
  unfold cell. induction r as [| x r IH]; intros i j Hne; simpl.
  - now destruct i.
  - destruct i as [| i], j as [| j]; simpl; try reflexivity; try congruence.
    apply IH. congruence.
Qed.

Lemma length_set_nth {A} (l : list A) (x : A) :
  forall i, length (set_nth i x l) = length l.
Proof.
  induction l as [| y l IH]; intros i; simpl; [now destruct i |].
  destruct i; simpl; [reflexivity | now rewrite IH].
Qed.

Lemma cell_app_new (r : list pyval) (v : pyval) :
  cell (r ++ [v]) (length r) = v.
Proof. unfold cell. now rewrite nth_middle. Qed.

Lemma cell_app_old (r : list pyval) (v : pyval) (j : nat) :
  (j < length r)%nat -> cell (r ++ [v]) j = cell r j.
Proof. intros Hj. unfold cell. now rewrite app_nth1. Qed.

(** Reading a column of a table whose rows were updated cell by cell. *)
Lemma zip_rows_cells (f : list pyval -> pyval -> list pyval)
    (g : list pyval -> pyval -> pyval) (j : nat) (rs : list (Z * list pyval)) :
  forall vals,
    length vals = length rs ->
    Forall (fun r => forall v, cell (f (snd r) v) j = g (snd r) v) rs ->
    map (fun r => cell (snd r) j) (zip_rows f rs vals)
    = zip_with (fun r v => g (snd r) v) rs vals.
Proof.
  induction rs as [| r rs IH]; intros [| v vals] Hlen HF; simpl in *;
    try reflexivity; try discriminate.
  apply Forall_cons in HF as [Hr HF]. rewrite Hr. f_equal.
  apply IH; [lia | exact HF].
Qed.

Lemma zip_with_snd {A} (rs : list A) (vals : list pyval) :
  length vals = length rs -> zip_with (fun _ v => v) rs vals = vals.
Proof.
  revert vals. induction rs as [| r rs IH]; intros [| v vals] Hlen; simpl in *;
    try reflexivity; try discriminate.
  f_equal. apply IH. lia.
Qed.

Lemma zip_with_fst {A B} (h : A -> B) (rs : list A) (vals : list pyval) :
  length vals = length rs -> zip_with (fun r _ => h r) rs vals = map h rs.
Proof.
  revert vals. induction rs as [| r rs IH]; intros [| v vals] Hlen; simpl in *;
    try reflexivity; try discriminate.
  f_equal. apply IH. lia.
Qed.

Lemma zip_rows_labels (f : list pyval -> pyval -> list pyval)
    (rs : list (Z * list pyval)) :
  forall vals,
    length vals = length rs -> map fst (zip_rows f rs vals) = map fst rs.
Proof.
  induction rs as [| r rs IH]; intros [| v vals] Hlen; simpl in *;
    try reflexivity; try discriminate.
  f_equal. apply IH. lia.
Qed.

Lemma zip_rows_length (f : list pyval -> pyval -> list pyval)
    (rs : list (Z * list pyval)) :
  forall vals,
    length vals = length rs -> length (zip_rows f rs vals) = length rs.
Proof.
  induction rs as [| r rs IH]; intros [| v vals] Hlen; simpl in *;
    try reflexivity; try discriminate.
  f_equal. apply IH. lia.
Qed.

Lemma zip_rows_app_take (n : nat) (rs : list (Z * list pyval)) :
  forall vals,
    length vals = length rs ->
    Forall (fun r => length (snd r) = n) rs ->
    map (fun r => take n (snd r)) (zip_rows (fun r v => r ++ [v]) rs vals)
    = map snd rs.
Proof.
  induction rs as [| r rs IH]; intros [| v vals] Hlen HF; simpl in *;
    try reflexivity; try discriminate.
  apply Forall_cons in HF as [Hr HF]. f_equal.
  - rewrite <- Hr. now rewrite take_app_length.
  - apply IH; [lia | exact HF].
Qed.

(** A column assignment with as many values as rows succeeds; the column
    reads back as the values, and any other column as before. *)
Lemma setcol_ok (df : DataFrame) (c : string) (vals : list pyval) :
  wf_frame df ->
  length vals = nrows df ->
  exists out,
    setcol df c vals = Ok out /\
    nrows out = nrows df /\
    map fst (rows out) = map fst (rows df) /\
    getcol out c = Ok vals /\
    (forall c', c' <> c -> getcol out c' = getcol df c') /\
    (has_col (columns df) c = true -> columns out = columns df) /\
    (has_col (columns df) c = false ->
     columns out = columns df ++ [c] /\
     map (fun r => take (length (columns df)) (snd r)) (rows out)
     = map snd (rows df)).
Proof.
  intros Hwf Hlen. unfold setcol. rewrite Hlen, Nat.eqb_refl.
  unfold nrows in Hlen. unfold wf_frame in Hwf.
  destruct (col_pos (columns df) c) as [i |] eqn:Ec.
  - eexists. split; [reflexivity |]. unfold nrows, getcol. simpl.
    pose proof (col_pos_lt _ _ _ Ec) as Hi.
    split; [now apply zip_rows_length |].
    split; [now apply zip_rows_labels |].
    rewrite Ec. split; [| split; [| split]].
    + f_equal.
      rewrite (zip_rows_cells _ (fun _ v => v)); [now apply zip_with_snd | exact Hlen |].
      eapply Forall_impl; [exact Hwf |]. simpl. intros r Hr v.
      apply cell_set_nth_eq. lia.
    + intros c' Hne. destruct (col_pos (columns df) c') as [j |] eqn:Ec';
        [| reflexivity].
      f_equal.
      rewrite (zip_rows_cells _ (fun r _ => cell r j));
        [now apply (zip_with_fst (fun r => cell (snd r) j)) | exact Hlen |].
      apply Forall_forall. intros r _ v. apply cell_set_nth_ne.
      intros ->. apply Hne. now apply (col_pos_inj _ _ _ _ Ec' Ec).
    + reflexivity.
    + intros Hf. apply col_pos_None in Hf. congruence.
  - eexists. split; [reflexivity |]. unfold nrows, getcol. simpl.
    split; [now apply zip_rows_length |].
    split; [now apply zip_rows_labels |].
    rewrite (col_pos_app_new _ _ Ec). split; [| split; [| split]].
    + f_equal.
      rewrite (zip_rows_cells _ (fun _ v => v)); [now apply zip_with_snd | exact Hlen |].
      eapply Forall_impl; [exact Hwf |]. simpl. intros r Hr v.
      rewrite <- Hr. apply cell_app_new.
    + intros c' Hne. destruct (col_pos (columns df) c') as [j |] eqn:Ec'.
      * rewrite (col_pos_app_old _ _ _ _ Ec'). f_equal.
        rewrite (zip_rows_cells _ (fun r _ => cell r j));
          [now apply (zip_with_fst (fun r => cell (snd r) j)) | exact Hlen |].
        eapply Forall_impl; [exact Hwf |]. simpl. intros r Hr v.
        apply cell_app_old. rewrite Hr. now apply (col_pos_lt _ c').
      * assert (Hn : col_pos (columns df ++ [c]) c' = None); [| now rewrite Hn].
        apply col_pos_None. apply col_pos_None in Ec'.
        unfold has_col in *. rewrite existsb_app, Ec'. simpl.
        rewrite orb_false_r. apply String.eqb_neq. exact Hne.
    + intros Hf. apply col_pos_None in Ec. congruence.
    + intros _. split; [reflexivity |]. now apply zip_rows_app_take.
Qed.

Section GenreProps.

Variable sp_artist : pyval -> result pyval.

Lemma getcol_length (df : DataFrame) (c : string) (vals : list pyval) :
  getcol df c = Ok vals -> length vals = nrows df.
Proof.
  unfold getcol. destruct (col_pos (columns df) c); [| discriminate].
  intros [= <-]. apply length_map.
Qed.

Lemma genres_of_inv (ids genres : list pyval) :
  genres_of sp_artist ids = Ok genres ->
  Forall2 (fun id g => exists artist,
             sp_artist id = Ok artist /\ getitem artist "genres" = Ok g)
          ids genres.
Proof.
  intros H. apply mapR_Forall2 in H.
  eapply Forall2_impl; [exact H |]. simpl. intros id g Hg.
  destruct (sp_artist id) as [artist |]; [| discriminate].
  now exists artist.
Qed.

Lemma genres_of_ok (ids : list pyval) :
  (forall id, id ∈ ids ->
     exists artist g, sp_artist id = Ok artist /\
                      getitem artist "genres" = Ok g) ->
  exists genres, genres_of sp_artist ids = Ok genres.
Proof.
  induction ids as [| id ids IH]; intros H; [now exists [] |].
  destruct (H id) as (artist & g & Ha & Hg); [apply list_elem_of_here |].
  destruct IH as [genres Hgs].
  { intros id' Hin. apply H. now apply list_elem_of_further. }
  exists (g :: genres). unfold genres_of in *. simpl.
  rewrite Ha. simpl. rewrite Hg. simpl. now rewrite Hgs.
Qed.

(** C6: on a table that has the artist column, when every artist lookup
    answers with an object that has genres, [add_genres] leaves in the table
    a ['genres'] column with one entry per row of the input table, and the
    entry at position [i] is the genre list of the artist looked up from the
    artist id that row [i] had when the function was called. *)
Theorem genres_aligned (s : store) (df : ref) (artist_id : string)
    (ids : list pyval) :
  wf_frame (s df) ->
  getcol (s df) artist_id = Ok ids ->
  (forall id, id ∈ ids ->
     exists artist g, sp_artist id = Ok artist /\
                      getitem artist "genres" = Ok g) ->
  exists s' genres,
    add_genres sp_artist df artist_id s = Ok (tt, s') /\
    getcol (s' df) "genres" = Ok genres /\
    length genres = nrows (s df) /\
    nrows (s' df) = nrows (s df) /\
    forall (i : nat) id,
      ids !! i = Some id ->
      exists artist g,
        sp_artist id = Ok artist /\
        getitem artist "genres" = Ok g /\
        genres !! i = Some g.
Proof.
  intros Hwf Hids Hall.
  destruct (genres_of_ok ids Hall) as [genres Hg].
  pose proof (genres_of_inv _ _ Hg) as HF.
  assert (Hlen : length genres = nrows (s df)).
  { rewrite <- (Forall2_length _ _ _ HF). now apply (getcol_length _ artist_id). }
  destruct (setcol_ok (s df) "genres" genres Hwf Hlen)
    as (out & Hset & Hn & _ & Hcol & _).
  exists (store_set s df out), genres.
  unfold add_genres. rewrite Hids. simpl. rewrite Hg. simpl. rewrite Hset.
  simpl.
  assert (Hdf : store_set s df out df = out).
  { unfold store_set. now rewrite Nat.eqb_refl. }
  rewrite Hdf.
  split; [reflexivity |]. split; [exact Hcol |]. split; [exact Hlen |].
  split; [exact Hn |].
  intros i id Hi.
  destruct (Forall2_lookup_l _ _ _ _ _ HF Hi) as (g & Hgi & artist & Ha & Hag).
  now exists artist, g.
Qed.

(** C10, amended: [add_genres] returns nothing and changes, in the store,
    the table it was given and no other; the index labels and the order of
    the rows stay, and every column but ['genres'] reads as before.  When
    the table had no ['genres'] column, the columns are the old ones in
    their order followed by ['genres'], and each row is its old cells
    followed by one new cell; when it had one, the columns are the same and
    that column is overwritten where it stands. *)
Theorem add_genres_frame (s s' : store) (df : ref) (artist_id : string)
    (u : unit) :
  wf_frame (s df) ->
  add_genres sp_artist df artist_id s = Ok (u, s') ->
  u = tt /\
  (forall r, r <> df -> s' r = s r) /\
  nrows (s' df) = nrows (s df) /\
  map fst (rows (s' df)) = map fst (rows (s df)) /\
  (forall c, c <> "genres" -> getcol (s' df) c = getcol (s df) c) /\
  (has_col (columns (s df)) "genres" = false ->
   columns (s' df) = columns (s df) ++ ["genres"] /\
   map (fun r => take (length (columns (s df))) (snd r)) (rows (s' df))
   = map snd (rows (s df))) /\
  (has_col (columns (s df)) "genres" = true ->
   columns (s' df) = columns (s df)).
Proof.
  intros Hwf H. unfold add_genres in H.
  destruct (getcol (s df) artist_id) as [ids |] eqn:Hids; [| discriminate].
  simpl in H.
  destruct (genres_of sp_artist ids) as [genres |] eqn:Hg; [| discriminate].
  simpl in H.
  assert (Hlen : length genres = nrows (s df)).
  { rewrite <- (Forall2_length _ _ _ (genres_of_inv _ _ Hg)).
    now apply (getcol_length _ artist_id). }
  destruct (setcol_ok (s df) "genres" genres Hwf Hlen)
    as (out & Hset & Hn & Hlab & _ & Hother & Hsame & Hnew).
  rewrite Hset in H. simpl in H. injection H as _ <-.
  split; [now destruct u |].
  assert (Hdf : store_set s df out df = out).
  { unfold store_set. now rewrite Nat.eqb_refl. }
  rewrite Hdf. split; [| auto].
  intros r Hr. unfold store_set.
  destruct (Nat.eqb r df) eqn:E; [| reflexivity].
  apply Nat.eqb_eq in E. contradiction.
Qed.

End GenreProps.

Lemma genres_aligned_witness :
  exists s' genres,
    add_genres artist_service 0%nat "artist_id" (fun _ => table_two_moods)
    = Ok (tt, s') /\
    getcol (s' 0%nat) "genres" = Ok genres /\
    length genres = 2%nat.
Proof.
  destruct (genres_aligned artist_service (fun _ => table_two_moods) 0%nat
              "artist_id" [PStr "a1"; PStr "a1"])
    as (s' & genres & H1 & H2 & H3 & _).
  - unfold wf_frame. simpl. repeat constructor.
  - reflexivity.
  - intros id _. eexists. eexists. split; reflexivity.
  - exists s', genres. auto.
Defined.

(** C10, as stated, fails on a table that has a ['genres'] column already:
    no column is added, and the values of that pre-existing column
    change. *)
Lemma existing_genres_overwritten :
  exists s',
    add_genres artist_service 0%nat "artist_id" (fun _ => table_with_genres)
    = Ok (tt, s') /\
    columns (s' 0%nat) = columns table_with_genres /\
    getcol table_with_genres "genres" = Ok [PList [PStr "rock"]] /\
    getcol (s' 0%nat) "genres" = Ok [PList [PStr "pop"]].
Proof.
  eexists. split; [reflexivity |]. repeat split.
Qed.

Lemma add_genres_frame_witness :
  exists s',
    add_genres artist_service 0%nat "artist_id" (fun _ => table_two_moods)
    = Ok (tt, s') /\
    columns (s' 0%nat) = track_columns ++ ["genres"] /\
    s' 1%nat = table_two_moods.
Proof.
  eexists. split; [reflexivity |].
  match goal with
  | |- columns (?s' _) = _ /\ _ =>
      destruct (add_genres_frame artist_service (fun _ => table_two_moods) s'
                  0%nat "artist_id" tt)
        as (_ & Hother & _ & _ & _ & Hnew & _)
  end.
  - unfold wf_frame. simpl. repeat constructor.
  - reflexivity.
  - split; [exact (proj1 (Hnew eq_refl)) | now apply Hother].
Defined.

(** ** Catalog search *)

Lemma assoc_set_keys {V} (d : list (string * V)) (k : string) (v : V) :
  map fst (assoc_set d k v)
  = if has_col (map fst d) k then map fst d else map fst d ++ [k].
Proof.
  induction d as [| [k' v'] d IH]; simpl; [reflexivity |].
  rewrite (String.eqb_sym k k').
  destruct (String.eqb k' k); simpl; [reflexivity |].
  rewrite IH. now destruct (has_col (map fst d) k).
Qed.

Lemma assoc_set_Forall {V} (P : string * V -> Prop) (d : list (string * V))
    (k : string) (v : V) :
  Forall P d -> P (k, v) -> Forall P (assoc_set d k v).
Proof.
  intros Hd Hkv. induction Hd as [| [k' v'] d Hx Hd IH]; simpl.
  - now constructor.
  - destruct (String.eqb k' k) eqn:E.
    + apply String.eqb_eq in E. subst k'. now constructor.
    + now constructor.
Qed.

Section MoodListProps.

Variable sp_search : string -> result pyval.

Lemma mood_lists_from_ok (moods : list string) :
  forall acc ml,
    mood_lists_from sp_search moods acc = Ok ml ->
    map fst ml = map fst acc ++ first_seen moods (map fst acc) /\
    (Forall (fun kv => search_ids sp_search (fst kv) = Ok (snd kv)) acc ->
     Forall (fun kv => search_ids sp_search (fst kv) = Ok (snd kv)) ml) /\
    Forall (fun m => exists ids, search_ids sp_search m = Ok ids) moods.
Proof.
  induction moods as [| m moods IH]; intros acc ml H; simpl in H.
  - injection H as <-. simpl. rewrite app_nil_r. auto.
  - destruct (search_ids sp_search m) as [ids |] eqn:E; [| discriminate].
    simpl in H. apply IH in H as (Hk & Hv & Hs).
    rewrite assoc_set_keys in Hk. simpl. split; [| split].
    + destruct (has_col (map fst acc) m); [exact Hk |].
      now rewrite <- app_assoc in Hk.
    + intros Hacc. apply Hv. now apply assoc_set_Forall.
    + constructor; [now exists ids | exact Hs].
Qed.

Lemma mood_lists_from_total (moods : list string) :
  Forall (fun m => exists ids, search_ids sp_search m = Ok ids) moods ->
  forall acc, exists ml, mood_lists_from sp_search moods acc = Ok ml.
Proof.
  induction 1 as [| m moods [ids Hm] _ IH]; intros acc; simpl.
  - now exists acc.
  - rewrite Hm. simpl. apply IH.
Qed.

(** [generate_mood_lists] returns exactly when every search answers with a
    page whose items all have an ['id']. *)
Lemma mood_lists_returns (moods : list string) :
  (exists ml, generate_mood_lists sp_search moods = Ok ml) <->
  Forall (fun m => exists ids, search_ids sp_search m = Ok ids) moods.
Proof.
  unfold generate_mood_lists. split.
  - intros [ml H]. now apply mood_lists_from_ok in H.
  - intros H. now apply mood_lists_from_total.
Qed.

(** The inner loop returns the identifiers of the result page. *)
Lemma search_ids_page (mood : string) (ids : list pyval) :
  search_ids sp_search mood = Ok ids <-> page_ids sp_search mood ids.
Proof.
  unfold search_ids, page_ids. split.
  - intros H.
    destruct (sp_search mood) as [found |]; [| discriminate H].
    cbn [bind] in H.
    destruct (getitem found "playlists") as [playlists |] eqn:E1;
      [| discriminate H].
    cbn [bind] in H.
    destruct (getitem playlists "items") as [v |] eqn:E2; [| discriminate H].
    cbn [bind] in H.
    destruct (py_iter v) as [items |] eqn:E3; [| discriminate H].
    cbn [bind] in H. apply mapR_Forall2 in H.
    exists found, playlists, v, items. auto.
  - intros (found & playlists & v & items & -> & E1 & E2 & E3 & H).
    cbn [bind]. rewrite E1. cbn [bind]. rewrite E2. cbn [bind].
    rewrite E3. cbn [bind]. now apply mapR_Forall2.
Qed.

(** X1: When [generate_mood_lists] returns, the keys of the dict are the moods
    in the order in which they are first met, each once, and the value of a
    mood is the list of the ['id'] of the items of
    [sp.search(mood)['playlists']['items']], one per item, in page order. *)
Theorem mood_lists_content (moods : list string)
    (ml : list (string * list pyval)) :
  generate_mood_lists sp_search moods = Ok ml ->
  map fst ml = first_seen moods [] /\
  Forall (fun kv => page_ids sp_search (fst kv) (snd kv)) ml.
Proof.
  unfold generate_mood_lists. intros H.
  apply mood_lists_from_ok in H as (Hk & Hv & _). split; [exact Hk |].
  assert (Hs : Forall (fun kv => search_ids sp_search (fst kv) = Ok (snd kv))
                      ml) by (apply Hv; constructor).
  apply Forall_forall. intros kv Hkv. apply search_ids_page.
  now apply (proj1 (Forall_forall _ _) Hs).
Qed.

(** X2: The first search that fails ends the function with its exception; the
    lists of the moods searched before are lost. *)
Theorem mood_lists_raise (pre post : list string) (m : string) (e : exn) :
  Forall (fun m => exists ids, search_ids sp_search m = Ok ids) pre ->
  search_ids sp_search m = Raise e ->
  generate_mood_lists sp_search (pre ++ m :: post) = Raise e.
Proof.
  intros Hpre Hm. unfold generate_mood_lists. generalize (@nil (string * list pyval)).
  induction Hpre as [| x pre [ids Hx] _ IH]; intros acc; simpl.
  - now rewrite Hm.
  - rewrite Hx. simpl. apply IH.
Qed.

(** A result item without an ['id'] key is not skipped: the search of its
    mood raises a [KeyError]. *)
Lemma search_ids_missing_id (mood : string) (found playlists : pyval)
    (pre post : list pyval) (d : dict) :
  sp_search mood = Ok found ->
  getitem found "playlists" = Ok playlists ->
  getitem playlists "items" = Ok (PList (pre ++ PDict d :: post)) ->
  Forall (fun it => exists id, getitem it "id" = Ok id) pre ->
  dict_get d "id" = None ->
  search_ids sp_search mood = Raise KeyError.
Proof.
  intros Hs Hp Hi Hpre Hd. unfold search_ids.
  rewrite Hs. simpl. rewrite Hp. simpl. rewrite Hi. simpl. clear Hi.
  induction Hpre as [| x pre [id Hx] _ IH]; simpl.
  - now rewrite Hd.
  - rewrite Hx. simpl. now rewrite IH.
Qed.

End MoodListProps.

(** ** The mood table *)

Lemma get_tracks_rows_arity (playlist : pyval) (mood time : option string)
    (arr : ndarray) :
  get_tracks_from_playlist playlist mood time = Ok arr ->
  Forall (fun r => length r = arity time) (nd_rows arr).
Proof.
  intros H. apply get_tracks_ok in H as (v & items & _ & _ & _ & Harr).
  apply np_array_rows in Harr. rewrite Harr.
  apply Forall_forall. intros r Hr.
  apply list_elem_of_fmap in Hr as (info & -> & Hinfo).
  apply list_elem_of_omap in Hinfo as (item & _ & Hok).
  unfold ok_info in Hok.
  destruct (item_info mood time item) eqn:E; [| discriminate].
  injection Hok as ->. rewrite length_map. now apply item_info_length in E.
Qed.

Lemma range_index_snd {A} (l : list A) :
  forall start, map snd (range_index start l) = l.
Proof.
  induction l as [| x l IH]; intros start; simpl; [reflexivity |].
  now rewrite IH.
Qed.

Lemma range_index_wide {A} (P : A -> Prop) (l : list A) :
  Forall P l -> forall start, Forall (fun r => P (snd r)) (range_index start l).
Proof.
  induction 1 as [| x l Hx _ IH]; intros start; simpl; constructor; auto.
Qed.

Lemma reindex_record (r : Z * list pyval) :
  length (snd r) = 8%nat -> reindex record_columns record_columns r = r.
Proof.
  destruct r as [l cells]. simpl.
  do 8 (destruct cells as [| ? cells]; [discriminate |]).
  destruct cells; [reflexivity | discriminate].
Qed.

Lemma reindex_records (rs : list (Z * list pyval)) :
  Forall (fun r => length (snd r) = 8%nat) rs ->
  map (reindex record_columns record_columns) rs = rs.
Proof.
  induction 1 as [| r rs Hr _ IH]; simpl; [reflexivity |].
  now rewrite reindex_record, IH.
Qed.

(** Appending a playlist table to the empty table or to a table of
    records. *)
Lemma pd_concat_first (rs : list (Z * list pyval)) :
  Forall (fun r => length (snd r) = 8%nat) rs ->
  pd_concat (mkDataFrame [] []) (mkDataFrame record_columns rs)
  = mkDataFrame record_columns rs.
Proof.
  intros H. unfold pd_concat. simpl. f_equal. now apply reindex_records.
Qed.

Lemma pd_concat_next (ra rb : list (Z * list pyval)) :
  Forall (fun r => length (snd r) = 8%nat) ra ->
  Forall (fun r => length (snd r) = 8%nat) rb ->
  pd_concat (mkDataFrame record_columns ra) (mkDataFrame record_columns rb)
  = mkDataFrame record_columns (ra ++ rb).
Proof.
  intros Ha Hb. unfold pd_concat. simpl. f_equal.
  now rewrite !reindex_records.
Qed.

Section TrackDfProps.

Variable sp_playlist_tracks : pyval -> result pyval.

Lemma add_moods_pairs (mood_lists : list (string * list pyval)) :
  forall track_df,
    add_moods sp_playlist_tracks mood_lists track_df
    = add_pairs sp_playlist_tracks (mood_playlists mood_lists) track_df.
Proof.
  assert (Happ : forall p q df,
             add_pairs sp_playlist_tracks (p ++ q) df
             = let? df' := add_pairs sp_playlist_tracks p df in
               add_pairs sp_playlist_tracks q df').
  { induction p as [| x p IH]; intros q df; simpl; [reflexivity |].
    destruct (playlist_frame sp_playlist_tracks (fst x) (snd x)); simpl;
      [apply IH | reflexivity]. }
  assert (Hone : forall mood playlists df,
             add_playlists sp_playlist_tracks mood playlists df
             = add_pairs sp_playlist_tracks (map (pair mood) playlists) df).
  { induction playlists as [| p ps IH]; intros df; simpl; [reflexivity |].
    destruct (playlist_frame sp_playlist_tracks mood p); simpl;
      [apply IH | reflexivity]. }
  induction mood_lists as [| [mood playlists] rest IH]; intros df; simpl;
    [reflexivity |].
  unfold mood_playlists. simpl. rewrite Happ, Hone.
  destruct (add_pairs sp_playlist_tracks (map (pair mood) playlists) df);
    simpl; [apply IH | reflexivity].
Qed.

(** The table of a playlist: its records under the eight labels, numbered
    from 0; there is none when the extraction gave no record. *)
Lemma playlist_frame_ok (mood : string) (playlist : pyval) (df : DataFrame) :
  playlist_frame sp_playlist_tracks mood playlist = Ok df ->
  exists records,
    playlist_records sp_playlist_tracks (mood, playlist) records /\
    records <> [] /\
    Forall (fun r => length r = 8%nat) records /\
    df = mkDataFrame record_columns (range_index 0 records).
Proof.
  unfold playlist_frame. intros H.
  destruct (sp_playlist_tracks playlist) as [items |] eqn:E1; [| discriminate].
  simpl in H.
  destruct (get_tracks_from_playlist items (Some mood) None) as [arr |] eqn:E2;
    [| discriminate].
  simpl in H. pose proof (get_tracks_rows_arity _ _ _ _ E2) as Hw.
  unfold frame_of_array in H. exists (nd_rows arr).
  destruct (nd_rows arr) as [| r rs] eqn:Er; [discriminate H |].
  destruct (Nat.eqb _ _); [| discriminate H]. injection H as <-.
  split; [| split; [discriminate | split; [exact Hw | reflexivity]]].
  exists items, arr. auto.
Qed.

Lemma playlist_frame_empty (mood : string) (playlist items : pyval) :
  sp_playlist_tracks playlist = Ok items ->
  get_tracks_from_playlist items (Some mood) None = Ok (NdArray Float64 []) ->
  playlist_frame sp_playlist_tracks mood playlist = Raise ValueError.
Proof.
  intros H1 H2. unfold playlist_frame. rewrite H1. simpl. now rewrite H2.
Qed.

Lemma add_pairs_ok (pairs : list (string * pyval)) :
  forall acc out,
    Forall (fun r => length (snd r) = 8%nat) acc ->
    (add_pairs sp_playlist_tracks pairs (mkDataFrame record_columns acc)
     = Ok out \/
     (acc = [] /\ pairs <> [] /\
      add_pairs sp_playlist_tracks pairs (mkDataFrame [] []) = Ok out)) ->
    exists recs,
      Forall2 (fun mp rs => playlist_records sp_playlist_tracks mp rs /\
                            rs <> []) pairs recs /\
      out = mkDataFrame record_columns
              (acc ++ flat_map (range_index 0) recs).
Proof.
  induction pairs as [| [mood p] pairs IH]; intros acc out Hacc H.
  - destruct H as [H | (_ & Hne & _)]; [| now contradiction Hne].
    simpl in H. injection H as <-. exists []. split; [constructor |].
    simpl. now rewrite app_nil_r.
  - assert (Hstep : exists records,
               playlist_records sp_playlist_tracks (mood, p) records /\
               records <> [] /\
               Forall (fun r => length r = 8%nat) records /\
               add_pairs sp_playlist_tracks pairs
                 (mkDataFrame record_columns (acc ++ range_index 0 records))
               = Ok out).
    { destruct H as [H | (-> & _ & H)]; simpl in H;
        destruct (playlist_frame sp_playlist_tracks mood p) as [df |] eqn:E;
        try discriminate H; simpl in H;
        apply playlist_frame_ok in E as (records & Hrec & Hne & Hw & ->);
        exists records; (split; [exact Hrec |]); (split; [exact Hne |]);
        (split; [exact Hw |]).
      - rewrite pd_concat_next in H; [exact H | exact Hacc |].
        now apply (range_index_wide (fun r => length r = 8%nat)).
      - rewrite pd_concat_first in H; [exact H |].
        now apply (range_index_wide (fun r => length r = 8%nat)). }
    destruct Hstep as (records & Hrec & Hne & Hw & Hrest).
    destruct (IH (acc ++ range_index 0 records) out) as (recs & HF & ->).
    + apply Forall_app. split; [exact Hacc |].
      now apply (range_index_wide (fun r => length r = 8%nat)).
    + now left.
    + exists (records :: recs). split; [constructor; auto |].
      simpl. now rewrite app_assoc.
Qed.

Lemma add_pairs_raise (pre post : list (string * pyval)) (mp : string * pyval)
    (e : exn) :
  Forall (fun mp => exists df,
            playlist_frame sp_playlist_tracks (fst mp) (snd mp) = Ok df) pre ->
  playlist_frame sp_playlist_tracks (fst mp) (snd mp) = Raise e ->
  forall acc,
    add_pairs sp_playlist_tracks (pre ++ mp :: post) acc = Raise e.
Proof.
  intros Hpre Hmp. induction Hpre as [| x pre [df Hx] _ IH]; intros acc; simpl.
  - now rewrite Hmp.
  - rewrite Hx. simpl. apply IH.
Qed.

Lemma map_flat_map {A B C} (f : B -> C) (g : A -> list B) (l : list A) :
  map f (flat_map g l) = flat_map (fun x => map f (g x)) l.
Proof.
  induction l as [| x l IH]; simpl; [reflexivity |].
  now rewrite map_app, IH.
Qed.

(** X3: When [generate_track_df] returns, every playlist of every mood gave at
    least one record; the table has the column ['index'] followed by the
    eight record columns (['index'] alone when there was no playlist at
    all); its rows are, in the order of the loops, the records of each
    playlist, each preceded by its position in its own playlist, and they
    are numbered from 0 over the whole table. *)
Theorem track_df_closed_form (mood_lists : list (string * list pyval))
    (out : DataFrame) :
  generate_track_df sp_playlist_tracks mood_lists = Ok out ->
  exists recs,
    Forall2 (fun mp rs => playlist_records sp_playlist_tracks mp rs /\
                          rs <> [])
            (mood_playlists mood_lists) recs /\
    columns out = "index" :: match recs with
                             | [] => []
                             | _ :: _ => record_columns
                             end /\
    rows out = range_index 0 (flat_map position_rows recs).
Proof.
  unfold generate_track_df. rewrite add_moods_pairs. intros H.
  destruct (add_pairs sp_playlist_tracks (mood_playlists mood_lists)
              (mkDataFrame [] [])) as [df |] eqn:E; [| discriminate H].
  simpl in H. destruct (mood_playlists mood_lists) as [| mp pairs] eqn:Ep.
  - simpl in E. injection E as <-. injection H as <-.
    exists []. split; [constructor | split; reflexivity].
  - destruct (add_pairs_ok (mp :: pairs) [] df) as (recs & HF & ->).
    + constructor.
    + right. split; [reflexivity |]. split; [discriminate | exact E].
    + injection H as <-. exists recs. split; [exact HF |].
      inversion HF as [| ? rs ? recs' _ _]; subst. split; [reflexivity |].
      cbn [rows app]. f_equal. unfold position_rows. apply map_flat_map.
Qed.

(** X4: A playlist for which the extraction returns no record (it has no item,
    or every item is skipped) makes [generate_track_df] raise a
    [ValueError]: the empty array counts as one column and cannot take the
    eight labels.  The tables of the playlists before it are lost. *)
Theorem empty_playlist_raises (mood_lists : list (string * list pyval))
    (pre post : list (string * pyval)) (mood : string) (playlist items : pyval)
    (arr : ndarray) :
  mood_playlists mood_lists = pre ++ (mood, playlist) :: post ->
  Forall (fun mp => exists df,
            playlist_frame sp_playlist_tracks (fst mp) (snd mp) = Ok df) pre ->
  sp_playlist_tracks playlist = Ok items ->
  get_tracks_from_playlist items (Some mood) None = Ok arr ->
  nd_rows arr = [] ->
  generate_track_df sp_playlist_tracks mood_lists = Raise ValueError.
Proof.
  intros Hml Hpre Hitems Harr Hrows.
  unfold generate_track_df. rewrite add_moods_pairs, Hml.
  rewrite (add_pairs_raise pre post (mood, playlist) ValueError);
    [reflexivity | exact Hpre |].
  unfold playlist_frame. simpl. rewrite Hitems. simpl. rewrite Harr. simpl.
  unfold frame_of_array. now rewrite Hrows.
Qed.

End TrackDfProps.

(** X5: The extraction returns an array without rows exactly when the block of
    every item raised a [TypeError]. *)
Theorem no_record_iff_all_skipped (playlist : pyval)
    (mood time : option string) (arr : ndarray) :
  get_tracks_from_playlist playlist mood time = Ok arr ->
  exists items,
    (let? v := getitem playlist "items" in py_iter v) = Ok items /\
    (nd_rows arr = [] <->
     Forall (fun it => item_info mood time it = Raise TypeError) items).
Proof.
  intros H. apply get_tracks_ok in H as (v & items & E1 & E2 & HF & Harr).
  exists items. split; [now rewrite E1 |].
  apply np_array_rows in Harr. rewrite Harr. clear Harr E1 E2.
  induction HF as [| it items Hit _ IH]; [split; [constructor | reflexivity] |].
  cbn. unfold ok_info at 1.
  destruct Hit as [E | [info E]]; rewrite E.
  - rewrite IH. split; [now constructor | intros H; now inversion H].
  - cbn. split; [discriminate |]. intros H. inversion H. congruence.
Qed.

(** ** Track extraction: errors and labels *)

(** X6: An item whose artist list is empty is not skipped: [artists[0]] raises
    an [IndexError], which leaves the loop and the function, whatever the
    items before and after it. *)
Theorem empty_artist_list_raises (playlist v : pyval)
    (pre post : list pyval) (item track name id : pyval)
    (mood time : option string) :
  getitem playlist "items" = Ok v ->
  py_iter v = Ok (pre ++ item :: post) ->
  Forall (fun it => item_info mood time it = Raise TypeError \/
                    exists info, item_info mood time it = Ok info) pre ->
  track_of time item = Ok track ->
  getitem track "name" = Ok name ->
  getitem track "id" = Ok id ->
  getitem track "artists" = Ok (PList []) ->
  get_tracks_from_playlist playlist mood time = Raise IndexError.
Proof.
  intros Hv Hit Hpre Ht Hn Hid Ha.
  unfold get_tracks_from_playlist. rewrite Hv. simpl. rewrite Hit. simpl.
  rewrite (collect_raise mood time pre item post IndexError);
    [reflexivity | exact Hpre | | discriminate].
  unfold item_info. destruct time as [t |]; simpl in Ht.
  - injection Ht as ->. now rewrite Hn, Hid, Ha.
  - rewrite Ht. simpl. now rewrite Hn, Hid, Ha.
Qed.

(** X7: Every returned record carries the label it was called with, unchanged,
    as its eighth field, and in the top-item shape the time window as its
    ninth, whatever the element type of the array. *)
Theorem records_labelled (playlist : pyval) (mood time : option string)
    (arr : ndarray) :
  get_tracks_from_playlist playlist mood time = Ok arr ->
  Forall (fun r =>
            cell r 7 = of_opt mood /\
            match time with
            | Some t => cell r 8 = PStr t
            | None => length r = 8%nat
            end)
         (nd_rows arr).
Proof.
  intros H. apply get_tracks_ok in H as (v & items & _ & _ & _ & Harr).
  pose proof (np_array_unicode_label mood _ _
                (records_carry_label mood time items) Harr) as Hu.
  apply np_array_rows in Harr. rewrite Harr.
  apply Forall_forall. intros r Hr.
  apply list_elem_of_fmap in Hr as (info & -> & Hinfo).
  apply list_elem_of_omap in Hinfo as (item & _ & Hok).
  unfold ok_info in Hok.
  destruct (item_info mood time item) eqn:E; [| discriminate].
  injection Hok as ->. apply item_info_ok in E.
  destruct E as (? & ? & ? & ? & ? & ? & ? & ? & ? & ? & ? & E).
  destruct E as (_ & _ & _ & _ & _ & _ & _ & _ & _ & _ & _ & ->).
  unfold cell. split.
  - simpl. destruct (nd_dtype arr) eqn:Ed; try reflexivity.
    destruct (Hu eq_refl) as [m ->]. reflexivity.
  - destruct time as [t |]; simpl; [| reflexivity].
    now destruct (nd_dtype arr).
Qed.

(** ** Feature augmentation: what is kept *)

Lemma join_row_nonempty (i j width : nat) (right : list (Z * list pyval))
    (lrow : list pyval) :
  (1 <= length (join_row i j width right lrow))%nat.
Proof.
  unfold join_row.
  destruct (filter _ right) as [| m ms]; simpl; lia.
Qed.

Lemma flat_map_length_ge {A B} (f : A -> list B) (l : list A) :
  (forall x, (1 <= length (f x))%nat) ->
  (length l <= length (flat_map f l))%nat.
Proof.
  intros Hf. induction l as [| x l IH]; simpl; [lia |].
  rewrite length_app. specialize (Hf x). lia.
Qed.

Lemma merge_left_nrows_ge (left right out : DataFrame) (on : string) :
  merge_left left right on = Ok out -> (nrows left <= nrows out)%nat.
Proof.
  unfold merge_left.
  destruct (key_pos right on) as [j |]; [| discriminate]. simpl.
  destruct (key_pos left on) as [i |]; [| discriminate]. simpl.
  destruct (keys_clash _ _); [discriminate |]. simpl.
  intros [= <-]. unfold nrows. simpl. rewrite range_index_length.
  apply flat_map_length_ge. intros l. apply join_row_nonempty.
Qed.

Lemma select_mask_has (labels cols : list string) (c : string) :
  has_col (select (map (fun c => negb (has_col labels c)) cols) cols) c = true ->
  has_col labels c = false.
Proof.
  induction cols as [| c' cols IH]; simpl; [discriminate |].
  destruct (has_col labels c') eqn:E; simpl; [exact IH |].
  intros H. apply orb_true_iff in H as [H | H]; [| now apply IH].
  apply String.eqb_eq in H. now subst.
Qed.

Lemma drop_columns_gone (df out : DataFrame) (labels : list string)
    (c : string) :
  drop_columns df labels = Ok out ->
  has_col labels c = true ->
  has_col (columns out) c = false.
Proof.
  unfold drop_columns. destruct (forallb _ labels); [| discriminate].
  intros [= <-] Hc. simpl.
  destruct (has_col (select _ (columns df)) c) eqn:E; [| reflexivity].
  apply select_mask_has in E. congruence.
Qed.

Lemma key_pos_has (df : DataFrame) (on : string) (i : nat) :
  key_pos df on = Ok i -> has_col (columns df) on = true.
Proof.
  unfold key_pos. destruct (col_pos (columns df) on) eqn:E; [| discriminate].
  intros _. destruct (has_col (columns df) on) eqn:H; [reflexivity |].
  apply col_pos_None in H. congruence.
Qed.

(** A key column of strings is not joined with a key column of integers. *)
Lemma merge_left_key_types :
  merge_left (mkDataFrame ["track_id"; "mood"] [(0, [PStr "t1"; PStr "Happy"])])
             (mkDataFrame ["track_id"; "energy"] [(0, [PInt 1; PInt 5])])
             "track_id"
  = Raise ValueError.
Proof. reflexivity. Qed.

(** The joined table has the key column, under its own label. *)
Lemma merge_left_has_key (left right out : DataFrame) (on : string) :
  merge_left left right on = Ok out -> has_col (columns out) on = true.
Proof.
  unfold merge_left.
  destruct (key_pos right on) as [j |]; [| discriminate]. simpl.
  destruct (key_pos left on) as [i |] eqn:Ei; [| discriminate]. simpl.
  destruct (keys_clash _ _); [discriminate |]. simpl.
  intros [= <-]. cbn [columns]. apply key_pos_has in Ei.
  unfold has_col in *. rewrite existsb_app. apply orb_true_iff. left.
  induction (columns left) as [| c cols IH]; [discriminate Ei |].
  cbn [existsb map] in *. destruct (String.eqb on c) eqn:E.
  - apply String.eqb_eq in E. subst c. rewrite String.eqb_refl. simpl.
    now rewrite String.eqb_refl.
  - simpl in Ei. rewrite (IH Ei). apply orb_true_r.
Qed.

Section FeatureKept.

Variable sp_audio_features : pyval -> result (list (option dict)).

(** X9: [generate_features] never drops a row of its input: when it returns,
    the table it returns has at least as many rows. *)
Theorem generate_features_keeps_rows (df out : DataFrame)
    (track_id : string) :
  generate_features sp_audio_features df track_id = Ok out ->
  (nrows df <= nrows out)%nat.
Proof.
  rewrite generate_features_unfold.
  destruct (features_frame sp_audio_features df track_id) as [fdf |];
    [| discriminate].
  simpl. destruct (merge_left df fdf "track_id") as [m |] eqn:Em;
    [| discriminate].
  simpl. apply merge_left_nrows_ge in Em.
  destruct (has_col (columns m) "index").
  - intros H. apply drop_columns_nrows in H. lia.
  - intros [= <-]. exact Em.
Qed.

(** X10: The table that [generate_features] returns never has a column
    ['index']. *)
Theorem generate_features_no_index (df out : DataFrame) (track_id : string) :
  generate_features sp_audio_features df track_id = Ok out ->
  has_col (columns out) "index" = false.
Proof.
  rewrite generate_features_unfold.
  destruct (features_frame sp_audio_features df track_id) as [fdf |];
    [| discriminate].
  simpl. destruct (merge_left df fdf "track_id") as [m |]; [| discriminate].
  simpl. destruct (has_col (columns m) "index") eqn:E.
  - intros H. now apply (drop_columns_gone _ _ _ "index") in H.
  - now intros [= <-].
Qed.

(** X11: The column named by the argument [track_id] serves the lookups only;
    the join is always made on the column ['track_id'].  On a table that
    has no column of that name [generate_features] never returns,
    whichever column the argument names. *)
Theorem generate_features_needs_track_id (df : DataFrame) (track_id : string) :
  has_col (columns df) "track_id" = false ->
  forall out, generate_features sp_audio_features df track_id <> Ok out.
Proof.
  intros Hno out. rewrite generate_features_unfold.
  destruct (features_frame sp_audio_features df track_id) as [fdf |];
    [| discriminate].
  simpl. unfold merge_left.
  destruct (key_pos fdf "track_id") as [j |]; [| discriminate]. simpl.
  destruct (key_pos df "track_id") as [i |] eqn:Ei; [| discriminate].
  apply key_pos_has in Ei. congruence.
Qed.

End FeatureKept.

(** ** Genre augmentation: errors and order of the steps *)

Lemma mapR_raise {A B} (f : A -> result B) (pre post : list A) (x : A)
    (e : exn) :
  Forall (fun a => exists b, f a = Ok b) pre ->
  f x = Raise e ->
  mapR f (pre ++ x :: post) = Raise e.
Proof.
  intros Hpre Hx. induction Hpre as [| a pre [b Ha] _ IH]; simpl.
  - now rewrite Hx.
  - rewrite Ha. simpl. now rewrite IH.
Qed.

Lemma getcol_cells (df : DataFrame) (c : string) (vals : list pyval) :
  getcol df c = Ok vals ->
  exists i, col_pos (columns df) c = Some i /\ vals = cells_at df i.
Proof.
  unfold getcol. destruct (col_pos (columns df) c) as [i |]; [| discriminate].
  intros [= <-]. now exists i.
Qed.

Section GenreErrors.

Variable sp_artist : pyval -> result pyval.

(** X14: The first artist lookup that fails, or that answers with an object
    without ['genres'], ends [add_genres] with its exception; no column is
    assigned. *)
Theorem add_genres_raise (s : store) (df : ref) (artist_id : string)
    (pre post : list pyval) (id : pyval) (e : exn) :
  getcol (s df) artist_id = Ok (pre ++ id :: post) ->
  Forall (fun id' => exists g,
            (let? artist := sp_artist id' in getitem artist "genres") = Ok g)
         pre ->
  (let? artist := sp_artist id in getitem artist "genres") = Raise e ->
  add_genres sp_artist df artist_id s = Raise e.
Proof.
  intros Hids Hpre Hid. unfold add_genres, genres_of. rewrite Hids. simpl.
  now rewrite (mapR_raise _ pre post id e Hpre Hid).
Qed.

(** X16: The genre lists are not hashable: once [add_genres] has run on a table
    that has a row and whose artist column is not ['genres'] itself, so that
    the table has two columns at least, [drop_duplicates] on that table
    raises a [TypeError].  Duplicates have to be removed before the genres
    are added, as the script does. *)
Theorem drop_duplicates_after_genres (s s' : store) (df : ref)
    (artist_id : string) :
  wf_frame (s df) ->
  (forall id artist g,
     sp_artist id = Ok artist -> getitem artist "genres" = Ok g ->
     is_list g = true) ->
  rows (s df) <> [] ->
  artist_id <> "genres" ->
  add_genres sp_artist df artist_id s = Ok (tt, s') ->
  (2 <= length (columns (s' df)))%nat /\
  drop_duplicates (s' df) = Raise TypeError.
Proof.
  intros Hwf Hlists Hne Hid H. unfold add_genres in H.
  destruct (getcol (s df) artist_id) as [ids |] eqn:Hids; [| discriminate].
  simpl in H.
  destruct (genres_of sp_artist ids) as [genres |] eqn:Hg; [| discriminate].
  simpl in H. pose proof (genres_of_inv _ _ _ Hg) as HF.
  assert (Hlen : length genres = nrows (s df)).
  { rewrite <- (Forall2_length _ _ _ HF). now apply (getcol_length _ artist_id). }
  destruct (setcol_ok (s df) "genres" genres Hwf Hlen)
    as (out & Hset & Hn & _ & Hcol & Hother & _).
  rewrite Hset in H. simpl in H. injection H as <-.
  unfold store_set. rewrite Nat.eqb_refl.
  pose proof (Hother artist_id Hid) as Hart. rewrite Hids in Hart.
  apply getcol_cells in Hart as (j & Hj & _).
  apply getcol_cells in Hcol as (i & Hi & Hcells).
  assert (Hcols : (2 <= length (columns out))%nat).
  { pose proof (col_pos_lt _ _ _ Hi) as Hilt.
    pose proof (col_pos_lt _ _ _ Hj) as Hjlt.
    assert (Hij : i <> j).
    { intros ->. apply Hid. exact (col_pos_inj _ _ _ _ Hj Hi). }
    lia. }
  split; [exact Hcols |].
  unfold nrows in Hn, Hlen. unfold cells_at in Hcells.
  destruct (rows out) as [| r rs] eqn:Er.
  { rewrite <- Hn in Hlen. simpl in Hlen. destruct (rows (s df)); [congruence |].
    simpl in Hn. discriminate Hn. }
  destruct genres as [| g genres]; [discriminate Hcells |].
  assert (Hl : is_list g = true).
  { inversion HF as [| id ? ids' ? (artist & Ha & Hag) _]; subst.
    now apply (Hlists id artist g). }
  simpl in Hcells. injection Hcells as Hg0 _.
  apply drop_duplicates_unhashable; [exact Hcols | now rewrite Er |].
  unfold hashable_frame. rewrite Er. intros Hh.
  apply Forall_cons in Hh as [Hh _].
  unfold cell in Hg0.
  destruct (Nat.lt_ge_cases i (length (snd r))) as [Hlt | Hge].
  - assert (Hin : g ∈ snd r).
    { rewrite Hg0. apply list_elem_of_In. now apply nth_In. }
    apply (proj1 (Forall_forall _ _) Hh) in Hin. destruct g; discriminate.
  - rewrite nth_overflow in Hg0 by exact Hge. subst g. discriminate Hl.
Qed.

End GenreErrors.

(** ** Tables stay rectangular *)

Lemma select_length {A B} (mask : list bool) (l : list A) (l' : list B) :
  length l = length l' -> length (select mask l) = length (select mask l').
Proof.
  revert l l'. induction mask as [| b mask IH]; intros [| x l] [| y l'] H;
    simpl in *; try reflexivity; try discriminate.
  destruct b; simpl; [f_equal |]; apply IH; lia.
Qed.

Lemma drop_columns_wf (df out : DataFrame) (labels : list string) :
  wf_frame df -> drop_columns df labels = Ok out -> wf_frame out.
Proof.
  unfold drop_columns, wf_frame. intros Hwf.
  destruct (forallb _ labels); [| discriminate]. intros [= <-]. simpl.
  apply Forall_forall. intros r Hr.
  apply list_elem_of_fmap in Hr as (r0 & -> & Hr0). simpl.
  apply select_length. now apply (proj1 (Forall_forall _ _) Hwf).
Qed.

Lemma range_index_Forall {A} (P : Z * A -> Prop) (Q : A -> Prop) (l : list A) :
  (forall z x, Q x -> P (z, x)) ->
  Forall Q l -> forall start, Forall P (range_index start l).
Proof.
  intros HPQ. induction 1 as [| x l Hx _ IH]; intros start; simpl;
    constructor; auto.
Qed.

Lemma pd_DataFrame_wf (records : list dict) : wf_frame (pd_DataFrame records).
Proof.
  unfold wf_frame, pd_DataFrame. simpl.
  apply (range_index_Forall _ (fun r => length r = length (union_keys [] records))).
  - auto.
  - apply Forall_forall. intros r Hr.
    apply list_elem_of_fmap in Hr as (d & -> & _).
    unfold record_row. apply length_map.
Qed.

Lemma length_remove_nth {A} (l : list A) :
  forall i, (i < length l)%nat -> S (length (remove_nth i l)) = length l.
Proof.
  induction l as [| x l IH]; intros i Hi; simpl in *; [lia |].
  destruct i; simpl; [reflexivity |]. rewrite IH; [reflexivity | lia].
Qed.

Lemma key_pos_lt (df : DataFrame) (on : string) (i : nat) :
  key_pos df on = Ok i -> (i < length (columns df))%nat.
Proof.
  unfold key_pos. destruct (col_pos (columns df) on) as [k |] eqn:E;
    [| discriminate].
  destruct (Nat.eqb _ 1); [| discriminate]. intros [= <-].
  now apply (col_pos_lt _ on).
Qed.

Lemma join_row_wf (i j n w : nat) (right : list (Z * list pyval))
    (lrow : list pyval) :
  length lrow = n ->
  Forall (fun r => length (remove_nth j (snd r)) = w) right ->
  Forall (fun r => length r = (n + w)%nat) (join_row i j w right lrow).
Proof.
  intros Hl Hr. unfold join_row.
  destruct (filter _ right) as [| x xs] eqn:E.
  - constructor; [| constructor]. rewrite length_app, repeat_length. lia.
  - assert (Hsub : Forall (fun r => length (remove_nth j (snd r)) = w)
                     (x :: xs)).
    { rewrite <- E. apply Forall_forall. intros r Hin.
      apply list_elem_of_filter in Hin as [_ Hin].
      now apply (proj1 (Forall_forall _ _) Hr). }
    apply Forall_forall. intros r Hin.
    apply list_elem_of_fmap in Hin as (r0 & -> & Hr0).
    rewrite length_app.
    pose proof (proj1 (Forall_forall _ _) Hsub r0 Hr0) as Hw. simpl in Hw.
    lia.
Qed.

Lemma flat_map_Forall {A B} (P : B -> Prop) (f : A -> list B) (l : list A) :
  (forall x, x ∈ l -> Forall P (f x)) -> Forall P (flat_map f l).
Proof.
  induction l as [| x l IH]; intros H; simpl; [constructor |].
  apply Forall_app. split.
  - apply H, list_elem_of_here.
  - apply IH. intros y Hy. apply H. now apply list_elem_of_further.
Qed.

Lemma merge_left_wf (left right out : DataFrame) (on : string) :
  wf_frame left -> wf_frame right ->
  merge_left left right on = Ok out -> wf_frame out.
Proof.
  intros Hl Hr. unfold merge_left.
  destruct (key_pos right on) as [j |] eqn:Ej; [| discriminate]. simpl.
  destruct (key_pos left on) as [i |]; [| discriminate]. simpl.
  destruct (keys_clash _ _); [discriminate |]. simpl.
  intros [= <-]. unfold wf_frame. simpl.
  rewrite length_app, !length_map.
  apply key_pos_lt in Ej.
  apply (range_index_Forall _
           (fun r => length r
                     = (length (columns left)
                        + length (remove_nth j (columns right)))%nat));
    [auto |].
  apply flat_map_Forall. intros l Hin.
  apply join_row_wf.
  - now apply (proj1 (Forall_forall _ _) Hl).
  - eapply Forall_impl; [exact Hr |]. simpl. intros r Hlen.
    pose proof (length_remove_nth (columns right) j Ej) as H1.
    pose proof (length_remove_nth (snd r) j) as H2.
    rewrite Hlen in H2. specialize (H2 Ej). lia.
Qed.

Section FeatureWf.

Variable sp_audio_features : pyval -> result (list (option dict)).

Lemma features_frame_wf (df fdf : DataFrame) (track_id : string) :
  features_frame sp_audio_features df track_id = Ok fdf -> wf_frame fdf.
Proof.
  unfold features_frame.
  destruct (lookup_features sp_audio_features df track_id) as [fl |];
    [| discriminate].
  simpl. destruct (drop_columns _ _) as [d |] eqn:E; [| discriminate].
  simpl. intros [= <-].
  apply drop_columns_wf in E; [| apply pd_DataFrame_wf].
  unfold wf_frame, rename_column in *. simpl. now rewrite length_map.
Qed.

Lemma generate_features_wf (df out : DataFrame) (track_id : string) :
  wf_frame df ->
  generate_features sp_audio_features df track_id = Ok out ->
  wf_frame out.
Proof.
  intros Hwf. rewrite generate_features_unfold.
  destruct (features_frame sp_audio_features df track_id) as [fdf |] eqn:Ef;
    [| discriminate].
  simpl. destruct (merge_left df fdf "track_id") as [m |] eqn:Em;
    [| discriminate].
  simpl. apply features_frame_wf in Ef.
  pose proof (merge_left_wf _ _ _ _ Hwf Ef Em) as Hm.
  destruct (has_col (columns m) "index").
  - now apply drop_columns_wf.
  - now intros [= <-].
Qed.

End FeatureWf.

(** ** Removing duplicates and renumbering *)

Lemma range_index_map {A B} (g : A -> B) (l : list A) :
  forall start,
    map (fun r => (fst r, g (snd r))) (range_index start l)
    = range_index start (map g l).
Proof.
  induction l as [| x l IH]; intros start; simpl; [reflexivity |].
  now rewrite IH.
Qed.

Lemma select_keep_all {A} (cols : list string) (f : string -> bool)
    (l : list A) :
  Forall (fun c => f c = true) cols ->
  length l = length cols ->
  select (map f cols) l = l.
Proof.
  intros Hf. revert l. induction Hf as [| c cols Hc _ IH]; intros [| x l] Hlen;
    simpl in *; try reflexivity; try discriminate.
  rewrite Hc. f_equal. apply IH. lia.
Qed.

Lemma no_index_mask (cols : list string) :
  has_col cols "index" = false ->
  Forall (fun c => negb (has_col ["index"] c) = true) cols.
Proof.
  induction cols as [| c cols IH]; [constructor |].
  intros H. unfold has_col in H. cbn [existsb] in H.
  apply orb_false_iff in H as [Hc H].
  constructor; [| now apply IH].
  unfold has_col. cbn [existsb].
  rewrite orb_false_r, String.eqb_sym, Hc. reflexivity.
Qed.

Lemma keep_first_wf (n : nat) (rs : list (Z * list pyval)) :
  Forall (fun r => length (snd r) = n) rs ->
  forall seen, Forall (fun r => length (snd r) = n) (keep_first seen rs).
Proof.
  intros H seen. apply Forall_forall. intros r Hr.
  apply keep_first_elem in Hr. now apply (proj1 (Forall_forall _ _) H).
Qed.

(** On a rectangular table that has a column but no column ['index'], and
    on which [drop_duplicates] returns, the chain
    [drop_duplicates().reset_index().drop('index', axis=1)] keeps the
    columns, keeps of the rows the first of each group of equal rows, in
    order, and numbers them 0, 1, ... anew. *)
Lemma drop_duplicates_renumbered_rows (df d1 : DataFrame) :
  wf_frame df ->
  columns df <> [] ->
  has_col (columns df) "index" = false ->
  drop_duplicates df = Ok d1 ->
  drop_duplicates_renumbered df
  = Ok (mkDataFrame (columns df)
          (range_index 0 (map snd (keep_first [] (rows df))))).
Proof.
  intros Hwf Hc Hno Hd. unfold drop_duplicates_renumbered.
  rewrite Hd. apply (drop_duplicates_ok _ _ Hc) in Hd. subst d1. simpl.
  unfold reset_index. simpl. rewrite Hno, Hno. simpl.
  unfold drop_columns. simpl.
  pose proof (no_index_mask _ Hno) as Hmask.
  f_equal. f_equal.
  - now apply select_keep_all.
  - set (g := fun cells : list pyval =>
                match cells with
                | [] => []
                | _ :: l' =>
                    select (map (fun c => negb (has_col ["index"] c))
                              (columns df)) l'
                end).
    change (map (fun r => (fst r, g (snd r)))
              (range_index 0
                 (map (fun r => PInt (fst r) :: snd r)
                    (keep_first [] (rows df))))
            = range_index 0 (map snd (keep_first [] (rows df)))).
    rewrite range_index_map. f_equal.
    rewrite map_map. apply map_ext_in. intros r Hr. unfold g.
    apply select_keep_all; [exact Hmask |].
    apply (proj1 (Forall_forall _ _) (keep_first_wf _ _ Hwf [])).
    now apply list_elem_of_In.
Qed.

(** ** The user table *)

(** Records that hold a null are kept as Python values. *)
Lemma np_array_null_object (tracks : list (list pyval)) (arr : ndarray) :
  Forall (fun r => PNone ∈ r) tracks ->
  tracks <> [] ->
  np_array tracks = Ok arr ->
  arr = NdArray Object tracks.
Proof.
  intros HF Hne. unfold np_array. destruct tracks as [| t ts]; [congruence |].
  destruct (existsb (existsb is_list) (t :: ts)); [discriminate |].
  destruct (mapM (mapM as_unicode) (t :: ts)) as [texts |] eqn:EM;
    [| now intros [= <-]].
  exfalso. apply Forall_cons in HF as [Ht _].
  apply mapM_Some_1, Forall2_cons_inv_l in EM.
  destruct EM as (tt & texts' & Ht' & _ & _).
  apply mapM_Some_1 in Ht'.
  apply list_elem_of_lookup in Ht as [i Hi].
  destruct (Forall2_lookup_l _ _ _ _ _ Ht' Hi) as (s & _ & Hs).
  discriminate Hs.
Qed.

(** Without a mood, the array of a window is the empty array or an array
    of Python values. *)
Lemma unlabelled_array (playlist : pyval) (time : option string)
    (arr : ndarray) :
  get_tracks_from_playlist playlist None time = Ok arr ->
  nd_rows arr <> [] ->
  nd_dtype arr = Object.
Proof.
  intros H Hne. apply get_tracks_ok in H as (v & items & _ & _ & _ & Harr).
  destruct (omap (ok_info None time) items) as [| t ts] eqn:E.
  - simpl in Harr. injection Harr as <-. now contradiction Hne.
  - apply np_array_null_object in Harr as ->; [reflexivity | | discriminate].
    rewrite <- E. apply (records_carry_label None time items).
Qed.

Lemma np_vstack_ok (arrays : list ndarray) (arr : ndarray) :
  np_vstack arrays = Ok arr ->
  exists r0 rest,
    concat (map atleast_2d arrays) = r0 :: rest /\
    Forall (fun r => length r = length r0) (r0 :: rest) /\
    nd_dtype arr = fold_right join_dtype Float64 (map nd_dtype arrays) /\
    nd_rows arr = map (map (np_cell (nd_dtype arr))) (r0 :: rest).
Proof.
  unfold np_vstack.
  destruct (concat (map atleast_2d arrays)) as [| r0 rest]; [discriminate |].
  destruct (forallb _ (r0 :: rest)) eqn:E; [| discriminate].
  intros [= <-]. exists r0, rest. split; [reflexivity |].
  split; [| split; reflexivity].
  rewrite forallb_forall in E. apply Forall_forall. intros r Hr.
  apply Nat.eqb_eq, E. now apply list_elem_of_In.
Qed.

Lemma np_vstack_raises (arrays : list ndarray) (e : exn) :
  np_vstack arrays = Raise e -> e = ValueError.
Proof.
  unfold np_vstack.
  destruct (concat (map atleast_2d arrays)) as [| r0 rest]; [now intros [= <-] |].
  destruct (forallb _ (r0 :: rest)); [discriminate | now intros [= <-]].
Qed.

(** A stack that holds an empty array cannot be given column labels. *)
Lemma stack_with_empty_raises (arrays : list ndarray) (a : ndarray)
    (cols : list string) :
  a ∈ arrays ->
  nd_rows a = [] ->
  cols <> [] ->
  (let? arr := np_vstack arrays in frame_of_array arr cols)
  = Raise ValueError.
Proof.
  intros Hin Ha Hcols.
  destruct (np_vstack arrays) as [arr | e] eqn:E; simpl.
  - apply np_vstack_ok in E as (r0 & rest & Hall & Hw & _ & Hrows).
    assert (Hnil : [] ∈ concat (map atleast_2d arrays)).
    { apply list_elem_of_In, in_concat. exists [[]]. split.
      - apply in_map_iff. exists a. split; [| now apply list_elem_of_In].
        unfold atleast_2d. now rewrite Ha.
      - now left. }
    rewrite Hall in Hnil.
    pose proof (proj1 (Forall_forall _ _) Hw [] Hnil) as H0. simpl in H0.
    unfold frame_of_array. rewrite Hrows. simpl. rewrite length_map, <- H0.
    destruct cols; [congruence | reflexivity].
  - now apply np_vstack_raises in E as ->.
Qed.

Lemma mapR_total {A B} (f : A -> result B) (l : list A) :
  (forall x, x ∈ l -> exists y, f x = Ok y) ->
  exists ys, mapR f l = Ok ys.
Proof.
  induction l as [| x l IH]; intros H; [now exists [] |].
  destruct (H x) as [y Hy]; [apply list_elem_of_here |].
  destruct IH as [ys Hys].
  { intros x' Hx'. apply H. now apply list_elem_of_further. }
  exists (y :: ys). simpl. rewrite Hy. simpl. now rewrite Hys.
Qed.

Section UserTableProps.

Variable sp_current_user_top_tracks : Z -> string -> result pyval.
Variable sp_audio_features : pyval -> result (list (option dict)).
Variable sp_artist : pyval -> result pyval.

(** X19: When the three requests answer but one window gives no record, the
    script fails with a [ValueError] before any feature is looked up: the
    empty array cannot be stacked with the others, and three empty arrays
    stacked cannot take the nine labels. *)
Theorem empty_window_raises :
  (forall tr, tr ∈ time_rank_range ->
     exists arr, window_tracks sp_current_user_top_tracks tr = Ok arr) ->
  (exists tr arr,
     tr ∈ time_rank_range /\
     window_tracks sp_current_user_top_tracks tr = Ok arr /\
     nd_rows arr = []) ->
  user_top_tracks_df sp_current_user_top_tracks sp_audio_features sp_artist
  = Raise ValueError.
Proof.
  intros Hall (tr & a & Htr & Ha & Hrows).
  destruct (mapR_total _ _ Hall) as [arrays Harrays].
  assert (Hin : a ∈ arrays).
  { pose proof (proj1 (mapR_Forall2 _ _ _) Harrays) as HF.
    apply list_elem_of_lookup in Htr as [i Hi].
    destruct (Forall2_lookup_l _ _ _ _ _ HF Hi) as (a' & Ha' & Heq).
    rewrite Ha in Heq. injection Heq as <-.
    apply list_elem_of_lookup. now exists i. }
  pose proof (stack_with_empty_raises arrays a user_columns Hin Hrows) as Hs.
  unfold user_top_tracks_df, user_top_tracks.
  rewrite Harrays. simpl.
  destruct (np_vstack arrays) as [arr | e]; simpl in *.
  - rewrite Hs; [reflexivity | discriminate].
  - rewrite Hs; [reflexivity | discriminate].
Qed.

End UserTableProps.

Lemma stack_rows_nonempty (arrays : list ndarray) (a : ndarray) (n : nat) :
  a ∈ arrays ->
  Forall (fun r => length r = S n) (concat (map atleast_2d arrays)) ->
  atleast_2d a = nd_rows a /\ nd_rows a <> [].
Proof.
  intros Hin Hw. unfold atleast_2d.
  destruct (nd_rows a) as [| r rs] eqn:Ea; [| split; [reflexivity | discriminate]].
  exfalso.
  assert (Hnil : [] ∈ concat (map atleast_2d arrays)).
  { apply list_elem_of_In, in_concat. exists [[]]. split; [| now left].
    apply in_map_iff. exists a. split; [| now apply list_elem_of_In].
    unfold atleast_2d. now rewrite Ea. }
  pose proof (proj1 (Forall_forall _ _) Hw [] Hnil) as H0. discriminate H0.
Qed.

Lemma range_index_labels {A} (l : list A) :
  forall start (rs : list (Z * A)),
    rs = range_index start l -> rs = range_index start (map snd rs).
Proof.
  intros start rs ->. now rewrite range_index_snd.
Qed.

Section UserTableRows.

Variable sp_current_user_top_tracks : Z -> string -> result pyval.
Variable sp_audio_features : pyval -> result (list (option dict)).
Variable sp_artist : pyval -> result pyval.

(** X20: When the stacked array takes the nine labels, each of the three windows
    gave at least one record; the stack is an array of Python values, and
    the rows of the table are the records of the short, the medium and the
    long window, in this order, unchanged and numbered from 0. *)
Theorem user_table_rows (arr : ndarray) (df : DataFrame) :
  user_top_tracks sp_current_user_top_tracks = Ok arr ->
  frame_of_array arr user_columns = Ok df ->
  exists short medium long,
    window_tracks sp_current_user_top_tracks ("short_term", 10) = Ok short /\
    window_tracks sp_current_user_top_tracks ("medium_term", 20) = Ok medium /\
    window_tracks sp_current_user_top_tracks ("long_term", 50) = Ok long /\
    nd_rows short <> [] /\ nd_rows medium <> [] /\ nd_rows long <> [] /\
    nd_dtype arr = Object /\
    df = mkDataFrame user_columns
           (range_index 0 (nd_rows short ++ nd_rows medium ++ nd_rows long)).
Proof.
  unfold user_top_tracks, time_rank_range. cbn [mapR]. intros H Hdf.
  destruct (window_tracks sp_current_user_top_tracks ("short_term", 10))
    as [a1 |] eqn:E1; [| discriminate H].
  destruct (window_tracks sp_current_user_top_tracks ("medium_term", 20))
    as [a2 |] eqn:E2; [| discriminate H].
  destruct (window_tracks sp_current_user_top_tracks ("long_term", 50))
    as [a3 |] eqn:E3; [| discriminate H].
  cbn [bind] in H.
  apply np_vstack_ok in H as (r0 & rest & Hall & Hw & Hd & Hrows).
  unfold frame_of_array in Hdf.
  assert (Hfirst : match nd_rows arr with
                   | [] => 1%nat
                   | r :: _ => length r
                   end = length r0).
  { rewrite Hrows. cbn [map]. apply length_map. }
  rewrite Hfirst in Hdf.
  destruct (Nat.eqb (length r0) (length user_columns)) eqn:E9;
    [| discriminate Hdf].
  apply Nat.eqb_eq in E9. injection Hdf as <-.
  assert (Hw9 : Forall (fun r => length r = 9%nat)
                  (concat (map atleast_2d [a1; a2; a3]))).
  { rewrite Hall. eapply Forall_impl; [exact Hw |]. simpl. intros r Hr.
    rewrite Hr. exact E9. }
  destruct (stack_rows_nonempty [a1; a2; a3] a1 8) as [B1 N1];
    [apply list_elem_of_here | exact Hw9 |].
  destruct (stack_rows_nonempty [a1; a2; a3] a2 8) as [B2 N2];
    [apply list_elem_of_further, list_elem_of_here | exact Hw9 |].
  destruct (stack_rows_nonempty [a1; a2; a3] a3 8) as [B3 N3];
    [do 2 apply list_elem_of_further; apply list_elem_of_here | exact Hw9 |].
  assert (D1 : nd_dtype a1 = Object).
  { unfold window_tracks in E1. simpl in E1.
    destruct (sp_current_user_top_tracks 10 "short_term"); [| discriminate].
    now apply (unlabelled_array _ _ _ E1). }
  assert (D2 : nd_dtype a2 = Object).
  { unfold window_tracks in E2. simpl in E2.
    destruct (sp_current_user_top_tracks 20 "medium_term"); [| discriminate].
    now apply (unlabelled_array _ _ _ E2). }
  assert (D3 : nd_dtype a3 = Object).
  { unfold window_tracks in E3. simpl in E3.
    destruct (sp_current_user_top_tracks 50 "long_term"); [| discriminate].
    now apply (unlabelled_array _ _ _ E3). }
  assert (Hobj : nd_dtype arr = Object).
  { rewrite Hd. simpl. now rewrite D1. }
  exists a1, a2, a3. repeat (split; [first [reflexivity | assumption] |]).
  f_equal. f_equal. rewrite Hrows, Hobj.
  rewrite np_cell_same by discriminate. rewrite <- Hall.
  simpl. rewrite B1, B2, B3. now rewrite app_nil_r.
Qed.

End UserTableRows.

Lemma labels_determine_numbering {A} (l : list A) :
  forall start (rs : list (Z * A)),
    map fst rs = map fst (range_index start l) ->
    rs = range_index start (map snd rs).
Proof.
  induction l as [| x l IH]; intros start [| [z y] rs] H; simpl in *;
    try reflexivity; try discriminate.
  injection H as -> H. f_equal. now apply (IH (start + 1)).
Qed.

Lemma frame_of_array_wf (arr : ndarray) (cols : list string) (df : DataFrame)
    (r0 : list pyval) (rest : list (list pyval)) :
  nd_rows arr = r0 :: rest ->
  Forall (fun r => length r = length r0) (r0 :: rest) ->
  frame_of_array arr cols = Ok df ->
  wf_frame df /\ columns df = cols.
Proof.
  intros Hr Hw. unfold frame_of_array. rewrite Hr.
  destruct (Nat.eqb (length r0) (length cols)) eqn:E; [| discriminate].
  apply Nat.eqb_eq in E. intros [= <-]. split; [| reflexivity].
  unfold wf_frame. simpl columns. cbn [rows].
  refine (range_index_Forall _ (fun r => length r = length cols)
            (r0 :: rest) _ _ 0); [auto |].
  eapply Forall_impl; [exact Hw |]. simpl. intros r Hlen. congruence.
Qed.

Section UserTableFinal.

Variable sp_current_user_top_tracks : Z -> string -> result pyval.
Variable sp_audio_features : pyval -> result (list (option dict)).
Variable sp_artist : pyval -> result pyval.

Lemma features_no_index_col (df out : DataFrame) (track_id : string) :
  generate_features sp_audio_features df track_id = Ok out ->
  has_col (columns out) "index" = false.
Proof.
  rewrite generate_features_unfold.
  destruct (features_frame sp_audio_features df track_id) as [fdf |];
    [| discriminate].
  simpl. destruct (merge_left df fdf "track_id") as [m |]; [| discriminate].
  simpl. destruct (has_col (columns m) "index") eqn:E.
  - intros H. now apply (drop_columns_gone _ _ _ "index") in H.
  - now intros [= <-].
Qed.

Lemma has_col_select (f : string -> bool) (cols : list string) (c : string) :
  has_col cols c = true -> f c = true ->
  has_col (select (map f cols) cols) c = true.
Proof.
  unfold has_col. intros H Hf. induction cols as [| c' cols IH];
    [discriminate H |].
  cbn [existsb map select] in *.
  destruct (String.eqb c c') eqn:E.
  - apply String.eqb_eq in E. subst c'. rewrite Hf. cbn [existsb].
    now rewrite String.eqb_refl.
  - simpl in H. destruct (f c'); [| now apply IH].
    cbn [existsb]. rewrite E. now apply IH.
Qed.

(** The table that [generate_features] returns has the column ['track_id']
    on which the features were joined. *)
Lemma features_has_track_id (df out : DataFrame) (track_id : string) :
  generate_features sp_audio_features df track_id = Ok out ->
  has_col (columns out) "track_id" = true.
Proof.
  rewrite generate_features_unfold.
  destruct (features_frame sp_audio_features df track_id) as [fdf |];
    [| discriminate].
  simpl. destruct (merge_left df fdf "track_id") as [m |] eqn:Em;
    [| discriminate].
  simpl.
  assert (Hm : has_col (columns m) "track_id" = true)
    by exact (merge_left_has_key _ _ _ _ Em).
  destruct (has_col (columns m) "index") eqn:E.
  - unfold drop_columns. destruct (forallb _ ["index"]); [| discriminate].
    intros [= <-]. cbn [columns].
    now apply (has_col_select (fun c => negb (has_col ["index"] c))).
  - now intros [= <-].
Qed.

Lemma user_frame_wf (arr : ndarray) (df : DataFrame) :
  user_top_tracks sp_current_user_top_tracks = Ok arr ->
  frame_of_array arr user_columns = Ok df ->
  wf_frame df.
Proof.
  unfold user_top_tracks. intros H Hdf.
  destruct (mapR _ time_rank_range) as [arrays |]; [| discriminate].
  simpl in H. apply np_vstack_ok in H as (r0 & rest & _ & Hw & _ & Hrows).
  cbn [map] in Hrows.
  apply (frame_of_array_wf arr user_columns df _ _ Hrows); [| exact Hdf].
  constructor; [reflexivity |].
  apply Forall_forall. intros r Hr.
  apply list_elem_of_fmap in Hr as (r' & -> & Hr').
  rewrite !length_map. apply Forall_cons in Hw as [_ Hw].
  now apply (proj1 (Forall_forall _ _) Hw).
Qed.

(** X21: When the script gets to the end, the user table it is about to write is
    numbered 0, 1, ... without gap, has no column ['index'], and has the
    column ['genres']. *)
Theorem user_table_final (df : DataFrame) :
  user_top_tracks_df sp_current_user_top_tracks sp_audio_features sp_artist
  = Ok df ->
  rows df = range_index 0 (map snd (rows df)) /\
  has_col (columns df) "index" = false /\
  has_col (columns df) "genres" = true.
Proof.
  unfold user_top_tracks_df. intros H.
  destruct (user_top_tracks sp_current_user_top_tracks) as [arr |] eqn:E0;
    [| discriminate H].
  cbn [bind] in H.
  destruct (frame_of_array arr user_columns) as [df0 |] eqn:E1;
    [| discriminate H].
  cbn [bind] in H.
  destruct (generate_features sp_audio_features df0 "track_id") as [df1 |] eqn:E2;
    [| discriminate H].
  cbn [bind] in H.
  destruct (drop_duplicates_renumbered df1) as [df2 |] eqn:E3;
    [| discriminate H].
  cbn [bind] in H.
  destruct (add_genres sp_artist 0%nat "artist_id" (fun _ => df2))
    as [[u s'] |] eqn:E4; [| discriminate H].
  cbn [bind snd] in H. injection H as <-.
  pose proof (user_frame_wf _ _ E0 E1) as Hwf0.
  pose proof (generate_features_wf _ _ _ _ Hwf0 E2) as Hwf1.
  pose proof (features_no_index_col _ _ _ E2) as Hno1.
  assert (Hc1 : columns df1 <> []).
  { pose proof (features_has_track_id _ _ _ E2) as Hk.
    intros Hnil. rewrite Hnil in Hk. discriminate Hk. }
  destruct (drop_duplicates df1) as [d1 |] eqn:Ed1;
    [| unfold drop_duplicates_renumbered in E3; rewrite Ed1 in E3;
       discriminate E3].
  rewrite (drop_duplicates_renumbered_rows df1 d1 Hwf1 Hc1 Hno1 Ed1) in E3.
  injection E3 as <-.
  set (df2 := mkDataFrame (columns df1)
                (range_index 0 (map snd (keep_first [] (rows df1))))) in *.
  assert (Hwf2 : wf_frame df2).
  { unfold wf_frame, df2. simpl columns. cbn [rows].
    apply (range_index_Forall _ (fun r => length r = length (columns df1)));
      [auto |].
    apply Forall_forall. intros r Hr.
    apply list_elem_of_fmap in Hr as (r' & -> & Hr').
    apply (proj1 (Forall_forall _ _) (keep_first_wf _ _ Hwf1 []) r' Hr'). }
  unfold add_genres in E4. cbn beta in E4.
  destruct (getcol df2 "artist_id") as [ids |] eqn:Hids; [| discriminate E4].
  cbn [bind] in E4.
  destruct (genres_of sp_artist ids) as [genres |] eqn:Hg; [| discriminate E4].
  cbn [bind] in E4.
  assert (Hlen : length genres = nrows df2).
  { rewrite <- (Forall2_length _ _ _ (genres_of_inv _ _ _ Hg)).
    now apply (getcol_length _ "artist_id"). }
  destruct (setcol_ok df2 "genres" genres Hwf2 Hlen)
    as (out & Hset & _ & Hlab & Hcol & _ & Hsame & Hnew).
  rewrite Hset in E4. cbn [bind] in E4. injection E4 as _ <-.
  unfold store_set. rewrite Nat.eqb_refl.
  split; [| split].
  - apply (labels_determine_numbering (map snd (keep_first [] (rows df1)))).
    exact Hlab.
  - destruct (has_col (columns df2) "genres") eqn:Eg.
    + rewrite (Hsame eq_refl). exact Hno1.
    + destruct (Hnew eq_refl) as [-> _]. unfold has_col in *.
      rewrite existsb_app. change (columns df2) with (columns df1).
      rewrite Hno1. reflexivity.
  - apply getcol_cells in Hcol as (i & Hi & _).
    destruct (has_col (columns out) "genres") eqn:Eo; [reflexivity |].
    apply col_pos_None in Eo. congruence.
Qed.

End UserTableFinal.

(** X17: On a rectangular table of hashable cells that has a column and has no
    column ['index'], the chain
    [drop_duplicates().reset_index().drop('index', axis=1)] returns a table
    with the same columns, numbered 0, 1, ..., whose rows are pairwise
    different, keep the order of the input, and still hold the cells of
    every input row. *)
Theorem renumbered_chain (df : DataFrame) :
  wf_frame df ->
  hashable_frame df ->
  columns df <> [] ->
  has_col (columns df) "index" = false ->
  exists out,
    drop_duplicates_renumbered df = Ok out /\
    columns out = columns df /\
    rows out = range_index 0 (map snd (rows out)) /\
    NoDup (map snd (rows out)) /\
    sublist (map snd (rows out)) (map snd (rows df)) /\
    forall r, r ∈ rows df -> snd r ∈ map snd (rows out).
Proof.
  intros Hwf Hh Hc Hno.
  rewrite (drop_duplicates_renumbered_rows df _ Hwf Hc Hno
             (drop_duplicates_hashable df Hh Hc)).
  eexists. split; [reflexivity |]. cbn [columns rows].
  rewrite range_index_snd.
  split; [reflexivity |]. split; [reflexivity |].
  split; [apply keep_first_NoDup |]. split.
  - apply (fmap_sublist snd), keep_first_sublist.
  - intros r Hr. destruct (keep_first_complete _ [] r Hr) as [H | H];
      [now apply elem_of_nil in H | exact H].
Qed.

(** X18: On a table that has a column ['index'] of its own the same chain does
    something else: [reset_index] stores the old numbering under
    ['level_0'], and the [drop] then removes the table's ['index'] column
    and leaves ['level_0'] in the result. *)
Theorem renumbered_chain_level_0 (df out : DataFrame) :
  has_col (columns df) "index" = true ->
  drop_duplicates_renumbered df = Ok out ->
  has_col (columns out) "level_0" = true /\
  has_col (columns out) "index" = false /\
  nrows out = length (keep_first [] (rows df)).
Proof.
  intros Hidx. unfold drop_duplicates_renumbered.
  assert (Hc : columns df <> []).
  { intros Hnil. rewrite Hnil in Hidx. discriminate Hidx. }
  destruct (drop_duplicates df) as [d1 |] eqn:Ed1; [| discriminate].
  apply (drop_duplicates_ok _ _ Hc) in Ed1. subst d1. cbn [bind].
  unfold reset_index. cbn [columns rows]. rewrite Hidx.
  destruct (has_col (columns df) "level_0"); [discriminate |]. cbn [bind].
  intros H. split; [| split].
  - unfold drop_columns in H.
    destruct (forallb _ ["index"]); [| discriminate H].
    injection H as <-. reflexivity.
  - now apply (drop_columns_gone _ _ _ "index") in H.
  - apply drop_columns_nrows in H. rewrite H. unfold nrows. cbn [rows].
    now rewrite range_index_length, length_map.
Qed.

(** ** Duplicates after the join *)

Lemma keep_first_cells (rs : list (Z * list pyval)) :
  forall seen, map snd (keep_first seen rs) = distinct seen (map snd rs).
Proof.
  induction rs as [| r rs IH]; intros seen; simpl; [reflexivity |].
  destruct (existsb (row_eqb (snd r)) seen); simpl; now rewrite IH.
Qed.

Lemma distinct_seen_ext (l : list (list pyval)) :
  forall seen seen',
    (forall x, x ∈ seen <-> x ∈ seen') -> distinct seen l = distinct seen' l.
Proof.
  induction l as [| r l IH]; intros seen seen' Heq; simpl; [reflexivity |].
  assert (Hb : existsb (row_eqb r) seen = existsb (row_eqb r) seen').
  { apply eq_true_iff_eq. rewrite !existsb_row_eqb. apply Heq. }
  rewrite Hb. destruct (existsb (row_eqb r) seen').
  - now apply IH.
  - f_equal. apply IH. intros x. rewrite !elem_of_cons. now rewrite Heq.
Qed.

(** A run of copies of a row counts as the row. *)
Lemma distinct_block (y : list pyval) (b rest : list (list pyval)) :
  b <> [] ->
  Forall (fun x => x = y) b ->
  forall seen, distinct seen (b ++ rest) = distinct seen (y :: rest).
Proof.
  intros Hne Hb. induction Hb as [| x b -> Hb IH]; [congruence |].
  intros seen. destruct b as [| x' b].
  - reflexivity.
  - change ((y :: x' :: b) ++ rest) with (y :: ((x' :: b) ++ rest)).
    cbn [distinct]. rewrite !IH by discriminate. cbn [distinct].
    destruct (existsb (row_eqb y) seen) eqn:E; [reflexivity |].
    assert (Hy : existsb (row_eqb y) (y :: seen) = true).
    { apply existsb_row_eqb, list_elem_of_here. }
    now rewrite Hy.
Qed.

Lemma distinct_blocks (f : list pyval -> list pyval)
    (block : list pyval -> list (list pyval)) (l : list (list pyval)) :
  Forall (fun x => block x <> [] /\ Forall (fun y => y = f x) (block x)) l ->
  forall seen, distinct seen (flat_map block l) = distinct seen (map f l).
Proof.
  induction 1 as [| x l [Hne Hall] _ IH]; intros seen; [reflexivity |].
  cbn [flat_map map]. rewrite (distinct_block (f x) _ _ Hne Hall).
  cbn [distinct]. destruct (existsb (row_eqb (f x)) seen); now rewrite IH.
Qed.

Lemma distinct_map_inj (f : list pyval -> list pyval) (n : nat)
    (l : list (list pyval)) :
  (forall x y, length x = n -> length y = n -> f x = f y -> x = y) ->
  Forall (fun x => length x = n) l ->
  forall seen,
    Forall (fun x => length x = n) seen ->
    distinct (map f seen) (map f l) = map f (distinct seen l).
Proof.
  intros Hinj Hl. induction Hl as [| x l Hx _ IH]; intros seen Hseen;
    [reflexivity |].
  cbn [map distinct].
  assert (Hb : existsb (row_eqb (f x)) (map f seen)
               = existsb (row_eqb x) seen).
  { apply eq_true_iff_eq. rewrite !existsb_row_eqb. split.
    - intros Hin. apply list_elem_of_fmap in Hin as (y & Hy & Hin).
      assert (x = y); [| now subst].
      apply Hinj; [exact Hx | | exact Hy].
      now apply (proj1 (Forall_forall _ _) Hseen).
    - intros Hin. apply list_elem_of_fmap. now exists x. }
  rewrite Hb. destruct (existsb (row_eqb x) seen).
  - now apply IH.
  - cbn [map]. f_equal. apply (IH (x :: seen)). now constructor.
Qed.

Lemma consistent_keys_spec (df : DataFrame) (on : string) (j : nat) :
  consistent_keys df on = true ->
  col_pos (columns df) on = Some j ->
  forall r1 r2,
    r1 ∈ rows df -> r2 ∈ rows df ->
    cell (snd r1) j = cell (snd r2) j -> snd r1 = snd r2.
Proof.
  unfold consistent_keys. intros H Hj r1 r2 H1 H2 Heq. rewrite Hj in H.
  rewrite forallb_forall in H.
  specialize (H r1 (proj1 (list_elem_of_In _ _) H1)).
  rewrite forallb_forall in H.
  specialize (H r2 (proj1 (list_elem_of_In _ _) H2)).
  rewrite Heq, pyval_eqb_refl in H. simpl in H. now apply row_eqb_eq.
Qed.

(** With consistent keys, the rows that one left row is joined into are
    copies of one row, which starts with the left row. *)
Lemma join_row_block (i j width : nat) (right : list (Z * list pyval))
    (lrow : list pyval) :
  (forall r1 r2, r1 ∈ right -> r2 ∈ right ->
                 cell (snd r1) j = cell (snd r2) j -> snd r1 = snd r2) ->
  exists t,
    join_row i j width right lrow <> [] /\
    Forall (fun y => y = lrow ++ t) (join_row i j width right lrow).
Proof.
  intros Hcons. unfold join_row.
  destruct (filter _ right) as [| m ms] eqn:E.
  - exists (repeat PNone width). split; [discriminate | now repeat constructor].
  - exists (remove_nth j (snd m)). split; [discriminate |].
    apply Forall_forall. intros y Hy.
    apply list_elem_of_fmap in Hy as (r & -> & Hr).
    assert (Hm : m ∈ filter (fun r => pyval_eqb (cell (snd r) j) (cell lrow i) = true)
                   right).
    { rewrite E. apply list_elem_of_here. }
    rewrite <- E in Hr.
    apply list_elem_of_filter in Hm as [Hmk Hmin].
    apply list_elem_of_filter in Hr as [Hrk Hrin].
    apply pyval_eqb_eq in Hmk, Hrk.
    rewrite (Hcons r m Hrin Hmin); [reflexivity | congruence].
Qed.

Lemma flat_map_snd {A B C} (f : B -> list C) (l : list (A * B)) :
  flat_map (fun x => f (snd x)) l = flat_map f (map snd l).
Proof.
  induction l as [| x l IH]; simpl; [reflexivity |]. now rewrite IH.
Qed.

(** With consistent keys on the right, the left join has as many different
    rows as the left table. *)
Lemma merge_left_distinct (left right out : DataFrame) (on : string) :
  wf_frame left ->
  consistent_keys right on = true ->
  merge_left left right on = Ok out ->
  length (distinct [] (map snd (rows out)))
  = length (distinct [] (map snd (rows left))).
Proof.
  intros Hwf Hcons. unfold merge_left.
  destruct (key_pos right on) as [j |] eqn:Ej; [| discriminate]. cbn [bind].
  destruct (key_pos left on) as [i |]; [| discriminate]. cbn [bind].
  destruct (keys_clash _ _); [discriminate |]. cbn [bind].
  intros [= <-]. cbn [rows]. rewrite range_index_snd, flat_map_snd.
  set (w := length (remove_nth j (columns right))).
  set (block := join_row i j w (rows right)).
  set (f := fun lrow => match block lrow with
                        | y :: _ => y
                        | [] => lrow
                        end).
  assert (Hj : col_pos (columns right) on = Some j).
  { unfold key_pos in Ej. destruct (col_pos (columns right) on); [| discriminate].
    destruct (Nat.eqb _ 1); [| discriminate]. now injection Ej as ->. }
  pose proof (consistent_keys_spec right on j Hcons Hj) as Hspec.
  assert (Hblock : forall lrow, exists t,
             f lrow = lrow ++ t /\ block lrow <> [] /\
             Forall (fun y => y = f lrow) (block lrow)).
  { intros lrow.
    destruct (join_row_block i j w (rows right) lrow Hspec) as (t & Hne & Hall).
    exists t. unfold f, block.
    destruct (join_row i j w (rows right) lrow) as [| y ys]; [congruence |].
    apply Forall_cons in Hall as Hy. destruct Hy as [-> _].
    repeat split; [discriminate | exact Hall]. }
  rewrite (distinct_blocks f block).
  - change (@nil (list pyval)) with (map f []) at 1.
    rewrite (distinct_map_inj f (length (columns left))).
    + apply length_map.
    + intros x y Hx Hy Hxy.
      destruct (Hblock x) as (tx & Ex & _). destruct (Hblock y) as (ty & Ey & _).
      rewrite Ex, Ey in Hxy. apply app_inj_1 in Hxy as [H _]; [exact H |].
      congruence.
    + apply Forall_forall. intros x Hx.
      apply list_elem_of_fmap in Hx as (r & -> & Hr).
      now apply (proj1 (Forall_forall _ _) Hwf).
    + constructor.
  - apply Forall_forall. intros x _.
    destruct (Hblock x) as (t & _ & Hne & Hall). now split.
Qed.

Lemma index_no_suffix (c s : string) :
  String.eqb "index" (c +:+ String "_" s) = false.
Proof.
  apply String.eqb_neq.
  destruct c as [| a1 [| a2 [| a3 [| a4 [| a5 [| a6 c]]]]]];
    intros H; cbv [String.append] in H; congruence.
Qed.

Lemma merged_names_no_index (cols : list string) (p : string -> bool)
    (s : string) :
  has_col cols "index" = false ->
  has_col (map (fun c => if p c then c +:+ String "_" s else c) cols) "index"
  = false.
Proof.
  unfold has_col. induction cols as [| c cols IH]; [reflexivity |].
  cbn [existsb map]. intros H. apply orb_false_iff in H as [Hc H].
  rewrite (IH H), orb_false_r.
  destruct (p c); [apply index_no_suffix | exact Hc].
Qed.

Lemma has_col_remove_nth (cols : list string) (c : string) :
  has_col cols c = false -> forall j, has_col (remove_nth j cols) c = false.
Proof.
  unfold has_col. induction cols as [| c' cols IH]; intros H j;
    [now destruct j |].
  cbn [existsb] in H. apply orb_false_iff in H as [Hc H].
  destruct j; cbn [remove_nth existsb]; [exact H |].
  now rewrite Hc, (IH H).
Qed.

Lemma merge_left_no_index (left right out : DataFrame) (on : string) :
  has_col (columns left) "index" = false ->
  has_col (columns right) "index" = false ->
  merge_left left right on = Ok out ->
  has_col (columns out) "index" = false.
Proof.
  intros Hl Hr. unfold merge_left.
  destruct (key_pos right on) as [j |]; [| discriminate]. cbn [bind].
  destruct (key_pos left on) as [i |]; [| discriminate]. cbn [bind].
  destruct (keys_clash _ _); [discriminate |]. cbn [bind].
  intros [= <-]. cbn [columns]. unfold has_col. rewrite existsb_app.
  apply orb_false_iff. split.
  - apply (merged_names_no_index (columns left) _ "x" Hl).
  - apply (merged_names_no_index _ _ "y").
    now apply has_col_remove_nth.
Qed.

Lemma hashable_prefix (rs : list (list pyval)) (l t : list pyval) :
  Forall (fun r => Forall (fun v => hashable v = true) r) rs ->
  (l ++ t) ∈ rs ->
  Forall (fun v => hashable v = true) l.
Proof.
  intros H Hin. apply (proj1 (Forall_forall _ _) H) in Hin.
  now apply Forall_app in Hin as [Hl _].
Qed.

Section DedupAfterFeatures.

Variable sp_audio_features : pyval -> result (list (option dict)).

(** X13: Removing the duplicates after the features are joined undoes the
    multiplication of rows.  On a rectangular table without ['index']
    column, when the feature objects that came back with the same id are
    the same in all fields (and have no ['index'] field), the table of
    [generate_features], once its duplicate rows are removed, has as many
    rows as the input table has once its own duplicates are removed. *)
Theorem dedup_after_features (df fdf out d1 : DataFrame) (track_id : string) :
  wf_frame df ->
  has_col (columns df) "index" = false ->
  features_frame sp_audio_features df track_id = Ok fdf ->
  has_col (columns fdf) "index" = false ->
  consistent_keys fdf "track_id" = true ->
  generate_features sp_audio_features df track_id = Ok out ->
  drop_duplicates out = Ok d1 ->
  exists d2, drop_duplicates df = Ok d2 /\ nrows d1 = nrows d2.
Proof.
  intros Hwf Hno Hf Hnof Hcons Hout Hd1.
  rewrite generate_features_unfold, Hf in Hout. cbn [bind] in Hout.
  destruct (merge_left df fdf "track_id") as [m |] eqn:Em; [| discriminate].
  cbn [bind] in Hout.
  rewrite (merge_left_no_index _ _ _ _ Hno Hnof Em) in Hout.
  injection Hout as <-.
  pose proof (merge_left_distinct _ _ _ _ Hwf Hcons Em) as Hcount.
  pose proof (merge_left_nrows_ge _ _ _ _ Em) as Hge.
  assert (Hcm : columns m <> []).
  { pose proof (merge_left_has_key _ _ _ _ Em) as Hk.
    intros Hnil. rewrite Hnil in Hk. discriminate Hk. }
  assert (Hwide : (length (columns df) <= length (columns m))%nat /\
                  columns df <> [] /\
                  (hashable_frame m -> hashable_frame df)).
  { unfold merge_left in Em.
    destruct (key_pos fdf "track_id") as [j |] eqn:Ej; [| discriminate].
    cbn [bind] in Em.
    destruct (key_pos df "track_id") as [i |] eqn:Ei; [| discriminate].
    cbn [bind] in Em.
    destruct (keys_clash _ _); [discriminate |]. cbn [bind] in Em.
    injection Em as <-.
    split; [cbn [columns]; rewrite length_app, length_map; lia |].
    split.
    { apply key_pos_has in Ei. intros Hnil. rewrite Hnil in Ei.
      discriminate Ei. }
    intros Hhm.
    unfold hashable_frame in *. cbn [rows] in Hhm.
    apply Forall_forall. intros r Hr.
    assert (Hj : col_pos (columns fdf) "track_id" = Some j).
    { unfold key_pos in Ej.
      destruct (col_pos (columns fdf) "track_id"); [| discriminate].
      destruct (Nat.eqb _ 1); [| discriminate]. now injection Ej as ->. }
    destruct (join_row_block i j (length (remove_nth j (columns fdf)))
                (rows fdf) (snd r)
                (consistent_keys_spec fdf "track_id" j Hcons Hj))
      as (t & Hne & Hall).
    destruct (join_row i j (length (remove_nth j (columns fdf))) (rows fdf)
                (snd r)) as [| y ys] eqn:Ey; [congruence |].
    apply Forall_cons in Hall as [-> _].
    apply (hashable_prefix
             (flat_map (fun l => join_row i j
                                   (length (remove_nth j (columns fdf)))
                                   (rows fdf) (snd l)) (rows df)) _ t).
    - rewrite <- (range_index_snd _ 0). apply Forall_forall.
      intros x Hx. apply list_elem_of_fmap in Hx as (x' & -> & Hx').
      now apply (proj1 (Forall_forall _ _) Hhm).
    - apply list_elem_of_In, in_flat_map. exists r.
      split; [now apply list_elem_of_In |]. rewrite Ey. now left. }
  destruct Hwide as (Hlen & Hcdf & Hhash).
  assert (Hd2 : drop_duplicates df
                = Ok (mkDataFrame (columns df) (keep_first [] (rows df)))).
  { destruct (rows df) as [| r rs] eqn:Er.
    - destruct df as [cols rs']. cbn [columns rows] in *. subst rs'.
      destruct cols as [| c [| c' cols]];
        [congruence | reflexivity | reflexivity].
    - destruct (columns df) as [| c [| c' cols]] eqn:Ec; [congruence | |].
      + destruct df as [cols' rs']. cbn [columns rows] in *. subst cols' rs'.
        apply drop_duplicates_one_column.
      + rewrite <- Er, <- Ec.
        apply drop_duplicates_hashable; [| congruence].
        apply Hhash. apply (drop_duplicates_hashes m d1); [| | exact Hd1].
        * simpl in Hlen. lia.
        * unfold nrows in Hge. rewrite Er in Hge. simpl in Hge.
          intros Hnil. rewrite Hnil in Hge. simpl in Hge. lia. }
  apply (drop_duplicates_ok _ _ Hcm) in Hd1. subst d1.
  rewrite Hd2. eexists. split; [reflexivity |].
  unfold nrows. cbn [rows].
  rewrite <- (length_map snd (keep_first [] (rows m))),
          <- (length_map snd (keep_first [] (rows df))).
  now rewrite !keep_first_cells.
Qed.

End DedupAfterFeatures.

(** ** Running the genre augmentation again *)

Lemma set_nth_same (r : list pyval) :
  forall i, set_nth i (cell r i) r = r.
Proof.
  unfold cell. induction r as [| x r IH]; intros i; [now destruct i |].
  destruct i; simpl; [reflexivity | now rewrite IH].
Qed.

Lemma zip_rows_same (i : nat) (rs : list (Z * list pyval)) :
  zip_rows (fun r v => set_nth i v r) rs (map (fun r => cell (snd r) i) rs)
  = rs.
Proof.
  induction rs as [| [z r] rs IH]; simpl; [reflexivity |].
  now rewrite set_nth_same, IH.
Qed.

Section GenresTwice.

Variable sp_artist : pyval -> result pyval.

(** X15: Calling [add_genres] a second time on the same table (the artist column
    not being ['genres'] itself) succeeds and changes nothing: the column
    is overwritten with the values it holds. *)
Theorem add_genres_twice (s s' : store) (df : ref) (artist_id : string) :
  wf_frame (s df) ->
  artist_id <> "genres" ->
  add_genres sp_artist df artist_id s = Ok (tt, s') ->
  exists s'',
    add_genres sp_artist df artist_id s' = Ok (tt, s'') /\
    forall r, s'' r = s' r.
Proof.
  intros Hwf Hne H. unfold add_genres in H.
  destruct (getcol (s df) artist_id) as [ids |] eqn:Hids; [| discriminate].
  cbn [bind] in H.
  destruct (genres_of sp_artist ids) as [genres |] eqn:Hg; [| discriminate].
  cbn [bind] in H.
  assert (Hlen : length genres = nrows (s df)).
  { rewrite <- (Forall2_length _ _ _ (genres_of_inv _ _ _ Hg)).
    now apply (getcol_length _ artist_id). }
  destruct (setcol_ok (s df) "genres" genres Hwf Hlen)
    as (out & Hset & Hn & _ & Hcol & Hother & _).
  rewrite Hset in H. cbn [bind] in H. injection H as <-.
  assert (Hdf : store_set s df out df = out).
  { unfold store_set. now rewrite Nat.eqb_refl. }
  assert (Hset2 : setcol out "genres" genres = Ok out).
  { unfold setcol. rewrite Hlen, <- Hn, Nat.eqb_refl.
    apply getcol_cells in Hcol as (i & Hi & ->). rewrite Hi.
    unfold cells_at. rewrite zip_rows_same.
    generalize out. intros [c r]. reflexivity. }
  exists (store_set (store_set s df out) df out).
  unfold add_genres. rewrite Hdf, (Hother artist_id Hne), Hids. cbn [bind].
  rewrite Hg. cbn [bind]. rewrite Hset2. cbn [bind].
  split; [reflexivity |].
  intros r. unfold store_set. now destruct (Nat.eqb r df).
Qed.

End GenresTwice.

(** ** Extraction of a page in two parts *)

Lemma np_array_total (tracks : list (list pyval)) :
  existsb (existsb is_list) tracks = false ->
  exists arr, np_array tracks = Ok arr.
Proof.
  intros H. unfold np_array.
  destruct tracks as [| t ts]; [eexists; reflexivity |].
  rewrite H.
  destruct (mapM _ _); [destruct (existsb (existsb is_str) (t :: ts)) |];
    eexists; reflexivity.
Qed.

Lemma np_array_no_list (tracks : list (list pyval)) (arr : ndarray) :
  np_array tracks = Ok arr -> existsb (existsb is_list) tracks = false.
Proof.
  unfold np_array. destruct tracks as [| t ts]; [reflexivity |].
  now destruct (existsb (existsb is_list) (t :: ts)).
Qed.

Lemma mapM_app_Some {A B} (f : A -> option B) (l1 l2 : list A)
    (k1 k2 : list B) :
  mapM f l1 = Some k1 -> mapM f l2 = Some k2 ->
  mapM f (l1 ++ l2) = Some (k1 ++ k2).
Proof.
  intros H1 H2. apply mapM_Some. apply mapM_Some in H1, H2.
  now apply Forall2_app.
Qed.

Lemma mapM_app_None_l {A B} (f : A -> option B) (l1 l2 : list A) :
  mapM f l1 = None -> mapM f (l1 ++ l2) = None.
Proof.
  intros H1. destruct (mapM f (l1 ++ l2)) as [k |] eqn:E; [| reflexivity].
  apply mapM_Some, Forall2_app_inv_l in E as (k1 & k2 & E1 & _ & _).
  apply mapM_Some in E1. congruence.
Qed.

(** Two arrays of records of the same element type stack into the array of
    all the records. *)
Lemma np_array_app (ta tb : list (list pyval)) (a b : ndarray) :
  np_array ta = Ok a ->
  np_array tb = Ok b ->
  nd_dtype a = nd_dtype b ->
  np_array (ta ++ tb) = Ok (NdArray (nd_dtype a) (nd_rows a ++ nd_rows b)).
Proof.
  intros Ha Hb Hd.
  pose proof (np_array_no_list _ _ Ha) as La.
  pose proof (np_array_no_list _ _ Hb) as Lb.
  unfold np_array in Ha, Hb.
  destruct ta as [| x ta].
  - injection Ha as <-. cbn [nd_dtype] in Hd. destruct tb as [| y tb].
    + now injection Hb as <-.
    + rewrite Lb in Hb.
      destruct (mapM _ (y :: tb)); [destruct (existsb (existsb is_str) _) |];
        injection Hb as <-; discriminate Hd.
  - rewrite La in Ha. unfold np_array.
    change ((x :: ta) ++ tb) with (x :: (ta ++ tb)).
    change (x :: (ta ++ tb)) with ((x :: ta) ++ tb) at 2 3 4.
    rewrite existsb_app, La. cbn [orb].
    assert (Lb' : existsb (existsb is_list) tb = false) by exact Lb.
    rewrite Lb'. rewrite !existsb_app.
    destruct (mapM (mapM as_unicode) (x :: ta)) as [ka |] eqn:Ea.
    + destruct (existsb (existsb is_str) (x :: ta)) eqn:Sa;
        injection Ha as <-; cbn [nd_dtype nd_rows] in *.
      * destruct tb as [| y tb]; [now injection Hb as <- |].
        rewrite Lb in Hb.
        destruct (mapM (mapM as_unicode) (y :: tb)) as [kb |] eqn:Eb;
          [destruct (existsb (existsb is_str) (y :: tb)) |];
          injection Hb as <-; try discriminate Hd.
        rewrite (mapM_app_Some _ _ _ _ _ Ea Eb). cbn [orb nd_rows].
        now rewrite map_app.
      * destruct tb as [| y tb]; [now injection Hb as <- |].
        rewrite Lb in Hb.
        destruct (mapM (mapM as_unicode) (y :: tb)) as [kb |] eqn:Eb;
          [destruct (existsb (existsb is_str) (y :: tb)) eqn:Sb |];
          injection Hb as <-; try discriminate Hd.
        rewrite (mapM_app_Some _ _ _ _ _ Ea Eb). cbn [orb nd_rows].
        reflexivity.
    + injection Ha as <-. cbn [nd_dtype nd_rows] in *.
      rewrite (mapM_app_None_l _ _ _ Ea).
      destruct tb as [| y tb]; [now injection Hb as <- |].
      rewrite Lb in Hb.
      destruct (mapM (mapM as_unicode) (y :: tb)) as [kb |];
        [destruct (existsb (existsb is_str) (y :: tb)) |];
        injection Hb as <-; try discriminate Hd.
      reflexivity.
Qed.

(** X8: When the two parts of a list of items give arrays of the same element
    type, the extraction of the whole list gives the array of the records
    of the first part followed by those of the second. *)
Theorem extraction_of_two_parts (a b : list pyval) (mood time : option string)
    (arr_a arr_b : ndarray) :
  get_tracks_from_playlist (page a) mood time = Ok arr_a ->
  get_tracks_from_playlist (page b) mood time = Ok arr_b ->
  nd_dtype arr_a = nd_dtype arr_b ->
  get_tracks_from_playlist (page (a ++ b)) mood time
  = Ok (NdArray (nd_dtype arr_a) (nd_rows arr_a ++ nd_rows arr_b)).
Proof.
  intros Ha Hb Hd.
  apply get_tracks_ok in Ha as (va & ia & E1 & E2 & Fa & Na).
  apply get_tracks_ok in Hb as (vb & ib & E3 & E4 & Fb & Nb).
  unfold page in *. cbn in E1, E3. injection E1 as <-. injection E3 as <-.
  cbn in E2, E4. injection E2 as <-. injection E4 as <-.
  unfold get_tracks_from_playlist. simpl.
  rewrite (collect_total mood time (a ++ b)); [| now apply Forall_app].
  cbn [bind app]. rewrite omap_app. now apply np_array_app.
Qed.

(** ** Instances *)

Lemma mood_lists_content_witness :
  generate_mood_lists search_service ["Happy"; "Calm"; "Happy"]
  = Ok [("Happy", [PStr "p1"; PStr "p2"]); ("Calm", [PStr "p1"; PStr "p2"])] /\
  map fst [("Happy", [PStr "p1"; PStr "p2"]); ("Calm", [PStr "p1"; PStr "p2"])]
  = ["Happy"; "Calm"] /\
  Forall (fun kv => page_ids search_service (fst kv) (snd kv))
    [("Happy", [PStr "p1"; PStr "p2"]); ("Calm", [PStr "p1"; PStr "p2"])].
Proof.
  split; [reflexivity |].
  exact (mood_lists_content search_service ["Happy"; "Calm"; "Happy"]
           [("Happy", [PStr "p1"; PStr "p2"]);
            ("Calm", [PStr "p1"; PStr "p2"])] eq_refl).
Defined.

Lemma mood_lists_raise_witness :
  generate_mood_lists search_service ["Happy"; "Sad"; "Calm"] = Raise KeyError.
Proof.
  apply (mood_lists_raise search_service ["Happy"] ["Calm"] "Sad" KeyError).
  - repeat constructor. eexists. reflexivity.
  - reflexivity.
Defined.

Lemma track_df_closed_form_witness :
  exists out recs,
    generate_track_df playlist_service
      [("Happy", [PStr "p1"]); ("Sad", [PStr "p2"])] = Ok out /\
    rows out = range_index 0 (flat_map position_rows recs).
Proof.
  eexists.
  destruct (track_df_closed_form playlist_service
              [("Happy", [PStr "p1"]); ("Sad", [PStr "p2"])] _ eq_refl)
    as (recs & _ & _ & Hrows).
  exists recs. split; [reflexivity | exact Hrows].
Defined.

Lemma empty_playlist_raises_witness :
  generate_track_df playlist_service
    [("Happy", [PStr "p1"; PStr "p9"]); ("Sad", [PStr "p2"])]
  = Raise ValueError.
Proof.
  apply (empty_playlist_raises playlist_service
           [("Happy", [PStr "p1"; PStr "p9"]); ("Sad", [PStr "p2"])]
           [("Happy", PStr "p1")] [("Sad", PStr "p2")] "Happy" (PStr "p9")
           (page []) (NdArray Float64 [])).
  - reflexivity.
  - repeat constructor. eexists. reflexivity.
  - reflexivity.
  - reflexivity.
  - reflexivity.
Defined.

Lemma no_record_iff_all_skipped_witness :
  exists items,
    (let? v := getitem (page [membership PNone]) "items" in py_iter v)
    = Ok items /\
    Forall (fun it => item_info (Some "Happy") None it = Raise TypeError) items.
Proof.
  destruct (no_record_iff_all_skipped (page [membership PNone]) (Some "Happy")
              None _ eq_refl) as (items & Hit & Hiff).
  exists items. split; [exact Hit | now apply Hiff].
Defined.

Lemma empty_artist_list_raises_witness :
  get_tracks_from_playlist
    (page [membership track1; membership (track_obj (PStr "Two") "t2" [] (PInt 3))])
    (Some "Happy") None
  = Raise IndexError.
Proof.
  apply (empty_artist_list_raises _
           (PList [membership track1;
                   membership (track_obj (PStr "Two") "t2" [] (PInt 3))])
           [membership track1] []
           (membership (track_obj (PStr "Two") "t2" [] (PInt 3)))
           (track_obj (PStr "Two") "t2" [] (PInt 3)) (PStr "Two") (PStr "t2")).
  - reflexivity.
  - reflexivity.
  - constructor; [right; eexists; reflexivity | constructor].
  - reflexivity.
  - reflexivity.
  - reflexivity.
  - reflexivity.
Defined.

Lemma records_labelled_witness :
  exists arr,
    get_tracks_from_playlist (page [track1; track3]) None (Some "short_term")
    = Ok arr /\
    Forall (fun r => cell r 7 = PNone /\ cell r 8 = PStr "short_term")
           (nd_rows arr).
Proof.
  eexists. split; [reflexivity |].
  exact (records_labelled (page [track1; track3]) None (Some "short_term")
           _ eq_refl).
Defined.

Lemma extraction_of_two_parts_witness :
  get_tracks_from_playlist
    (page ([membership track1] ++ [membership PNone; membership track3]))
    (Some "Happy") None
  = Ok (NdArray Unicode
          ([[PStr "One"; PStr "t1"; PStr "Ann"; PStr "a1"; PStr "Album";
             PStr "al1"; PStr "57"; PStr "Happy"]]
             ++ [[PStr "Three"; PStr "t3"; PStr "Cy"; PStr "a3"; PStr "Album";
                  PStr "al1"; PStr "12"; PStr "Happy"]])).
Proof.
  apply (extraction_of_two_parts [membership track1]
           [membership PNone; membership track3] (Some "Happy") None
           (NdArray Unicode _) (NdArray Unicode _));
    reflexivity.
Defined.

Lemma generate_features_keeps_rows_witness :
  exists out,
    generate_features service_all table_two_moods "track_id" = Ok out /\
    (2 <= nrows out)%nat.
Proof.
  eexists. split; [vm_compute; reflexivity |].
  apply (generate_features_keeps_rows service_all table_two_moods _
           "track_id").
  vm_compute. reflexivity.
Defined.

Lemma generate_features_no_index_witness :
  exists out,
    generate_features service_all table_two_moods "track_id" = Ok out /\
    has_col (columns table_two_moods) "index" = true /\
    has_col (columns out) "index" = false.
Proof.
  eexists. split; [vm_compute; reflexivity |]. split; [reflexivity |].
  apply (generate_features_no_index service_all table_two_moods _
           "track_id").
  vm_compute. reflexivity.
Defined.

Lemma generate_features_needs_track_id_witness :
  generate_features service_all (rename_column user_table "track_id" "id") "id"
  <> Ok user_table.
Proof.
  apply (generate_features_needs_track_id service_all).
  reflexivity.
Defined.

Lemma generate_features_nrows_unique_witness :
  exists out,
    generate_features service_all user_table_two "track_id" = Ok out /\
    nrows out = 2%nat.
Proof.
  eexists. split; [vm_compute; reflexivity |].
  eapply (generate_features_nrows_unique service_all user_table_two _ _
            "track_id" 4).
  - vm_compute. reflexivity.
  - reflexivity.
  - unfold cells_at. cbn [rows map snd cell nth].
    constructor.
    + rewrite list_elem_of_singleton. discriminate.
    + constructor; [apply not_elem_of_nil | constructor].
  - vm_compute. reflexivity.
Defined.

Lemma add_genres_raise_witness :
  add_genres artist_service_gap 0%nat "artist_id" (fun _ => user_table)
  = Raise KeyError.
Proof.
  apply (add_genres_raise artist_service_gap (fun _ => user_table) 0%nat
           "artist_id" [PStr "a1"] [PStr "a1"] (PStr "a3") KeyError).
  - reflexivity.
  - repeat constructor. eexists. reflexivity.
  - reflexivity.
Defined.

Lemma drop_duplicates_after_genres_witness :
  exists s',
    add_genres artist_service 0%nat "artist_id" (fun _ => user_table)
    = Ok (tt, s') /\
    (2 <= length (columns (s' 0%nat)))%nat /\
    drop_duplicates (s' 0%nat) = Raise TypeError.
Proof.
  eexists. split; [reflexivity |].
  apply (drop_duplicates_after_genres artist_service (fun _ => user_table) _
           0%nat "artist_id").
  - unfold wf_frame. simpl. repeat constructor.
  - intros id artist g Ha Hg. injection Ha as <-. simpl in Hg.
    now injection Hg as <-.
  - discriminate.
  - discriminate.
  - reflexivity.
Defined.

Lemma add_genres_twice_witness :
  exists s'',
    add_genres artist_service 0%nat "artist_id" genres_store = Ok (tt, s'') /\
    s'' 0%nat = genres_store 0%nat.
Proof.
  destruct (add_genres_twice artist_service (fun _ => user_table)
              genres_store 0%nat "artist_id") as (s'' & H2 & Heq);
    [ unfold wf_frame; simpl; repeat constructor
    | discriminate
    | reflexivity
    | ].
  exists s''. split; [exact H2 | apply Heq].
Defined.

Lemma renumbered_chain_witness :
  exists out,
    drop_duplicates_renumbered
      (mkDataFrame user_columns
         [(4, user_row "t1" "a1" "short_term");
          (7, user_row "t1" "a1" "short_term");
          (9, user_row "t3" "a3" "long_term")]) = Ok out /\
    rows out = [(0, user_row "t1" "a1" "short_term");
                (1, user_row "t3" "a3" "long_term")].
Proof.
  destruct (renumbered_chain
              (mkDataFrame user_columns
                 [(4, user_row "t1" "a1" "short_term");
                  (7, user_row "t1" "a1" "short_term");
                  (9, user_row "t3" "a3" "long_term")]))
    as (out & Hout & _);
    [ unfold wf_frame; simpl; repeat constructor
    | unfold hashable_frame; simpl; repeat constructor
    | discriminate
    | reflexivity
    | ].
  exists out. split; [exact Hout |].
  vm_compute in Hout. now injection Hout as <-.
Defined.

Lemma renumbered_chain_level_0_witness :
  exists out,
    drop_duplicates_renumbered indexed_table = Ok out /\
    has_col (columns out) "level_0" = true /\
    nrows out = 1%nat.
Proof.
  eexists. split; [reflexivity |].
  destruct (renumbered_chain_level_0 indexed_table _ eq_refl eq_refl)
    as (H1 & _ & H3).
  split; [exact H1 | exact H3].
Defined.

Lemma dedup_after_features_witness :
  nrows user_table = 3%nat /\
  nrows user_with_features = 5%nat /\
  exists d2,
    drop_duplicates user_table = Ok d2 /\
    nrows user_deduplicated = nrows d2.
Proof.
  split; [reflexivity |]. split; [vm_compute; reflexivity |].
  apply (dedup_after_features service_all user_table user_features
           user_with_features user_deduplicated "track_id").
  - unfold wf_frame. simpl. repeat constructor.
  - reflexivity.
  - vm_compute. reflexivity.
  - vm_compute. reflexivity.
  - vm_compute. reflexivity.
  - vm_compute. reflexivity.
  - vm_compute. reflexivity.
Defined.

Lemma empty_window_raises_witness :
  user_top_tracks_df top_service_gap service_all artist_service
  = Raise ValueError.
Proof.
  apply empty_window_raises.
  - intros tr _. unfold window_tracks, top_service_gap.
    destruct (String.eqb (fst tr) "medium_term"); eexists; reflexivity.
  - exists ("medium_term", 20), (NdArray Float64 []).
    split; [| split; reflexivity].
    apply list_elem_of_further, list_elem_of_here.
Defined.

Lemma user_table_rows_witness :
  exists arr df,
    user_top_tracks top_service = Ok arr /\
    frame_of_array arr user_columns = Ok df /\
    nd_dtype arr = Object /\
    nrows df = 6%nat.
Proof.
  eexists. eexists. split; [reflexivity |]. split; [reflexivity |].
  destruct (user_table_rows top_service _ _ eq_refl eq_refl)
    as (s & m & l & _ & _ & _ & _ & _ & _ & Hobj & _).
  split; [exact Hobj | reflexivity].
Defined.

Lemma user_table_final_witness :
  exists df,
    user_top_tracks_df top_service service_all artist_service = Ok df /\
    nrows df = 6%nat /\
    has_col (columns df) "genres" = true.
Proof.
  eexists. split; [vm_compute; reflexivity |]. split; [reflexivity |].
  refine (proj2 (proj2 (user_table_final top_service service_all
                          artist_service _ _))).
  vm_compute. reflexivity.
Defined.
